(** * LLM-Hub native inference session (llm-hub-jni.cpp)

    A shallow embedding of the three JNI entry points of
    [app/src/main/cpp/llm-hub-jni.cpp]:

    - [initLlama]        (lines 20-69),
    - [generateResponse] (lines 72-181),
    - [releaseLlama]     (lines 184-198),

    over an abstract llama.cpp backend.  The three process-wide statics
    [g_model], [g_vocab], [g_ctx] become an explicit [session] record that
    every entry point takes and returns; the calls made into the backend and
    into the Java side are recorded, in program order, as a list of [event]s.
    Logging calls ([__android_log_print], the [std::chrono] timers) only feed
    the log and are left out. *)

From Stdlib Require Import ZArith List Bool Ascii String Lia.
Import ListNotations.
Open Scope Z_scope.

(** ** Machine integers

    [int], [jint] and [int32_t] are 32-bit two's complement; arithmetic on
    them is done in [Z] and wrapped. *)

Definition INT_MIN : Z := - 2 ^ 31.
Definition INT_MAX : Z := 2 ^ 31 - 1.

Definition wrap32 (z : Z) : Z := (z + 2 ^ 31) mod 2 ^ 32 - 2 ^ 31.

Definition int_add (a b : Z) : Z := wrap32 (a + b).
Definition int_neg (a : Z) : Z := wrap32 (- a).

Definition in_int (z : Z) : Prop := INT_MIN <= z <= INT_MAX.

(** ** Bytes, [std::string] and C strings

    A [std::string] and the contents of a [char] buffer are lists of bytes.
    A [const char *] handed to a C-string consumer is read up to, and not
    including, its first NUL byte: that is [c_str]. *)

Definition cbytes : Type := list ascii.

Definition NUL : ascii := Ascii.zero.
Definition LF : ascii := Ascii.ascii_of_nat 10.

Definition is_nul (c : ascii) : bool := Ascii.eqb c NUL.

Fixpoint c_str (s : cbytes) : cbytes :=
  match s with
  | [] => []
  | c :: t => if is_nul c then [] else c :: c_str t
  end.

Definition lit (s : string) : cbytes := list_ascii_of_string s.

(** [strncmp(s1, s2, n)]: compares at most [n] bytes, stops after a NUL.
    The end of either list stands for the terminating NUL of that string. *)
Definition uchar (c : ascii) : Z := Z.of_nat (nat_of_ascii c).

Fixpoint strncmp (s1 s2 : cbytes) (n : nat) : Z :=
  match n with
  | O => 0
  | S n' =>
      let c1 := hd NUL s1 in
      let c2 := hd NUL s2 in
      if Ascii.eqb c1 c2
      then if is_nul c1 then 0 else strncmp (tl s1) (tl s2) n'
      else uchar c1 - uchar c2
  end.

(** ** JNI strings

    A [jstring] is represented by the C string it was built from: the bytes
    [NewStringUTF] was given, up to the first NUL.  How the Java side
    decodes these bytes (Modified UTF-8, once per call) is not modelled, so
    an equation between two [jstring]s is an equation between the bytes
    handed over, and says nothing on the characters a multi-byte sequence
    split between two calls turns into.
    [GetStringUTFChars] hands back a NUL-terminated buffer. *)

Definition jstring : Type := cbytes.

Definition NewStringUTF (p : cbytes) : jstring := c_str p.
Definition GetStringUTFChars (s : jstring) : cbytes := c_str s.

Definition jclass : Type := Z.
Definition jmethodID : Type := Z.

(** The part of [JNIEnv] that [generateResponse] uses to reach the Kotlin
    callback: both lookups may return [nullptr]. *)
Record JNIEnv : Type := {
  FindClass : cbytes -> option jclass;
  GetStaticMethodID : jclass -> cbytes -> cbytes -> option jmethodID
}.

(** ** The llama.cpp backend (llama.h), an external collaborator

    Handles are abstract.  A [llama_context] value stands for the context
    object in its current state (KV cache, latest logits), so an operation
    that mutates the context returns the new value; likewise for the sampler
    chain. *)

Definition llama_token : Type := Z.

Record llama_batch : Type := {
  n_tokens : Z;
  token : list llama_token
}.

Definition llama_batch_get_one (tokens : list llama_token) (n : Z) : llama_batch :=
  {| n_tokens := n; token := tokens |}.

Class Backend : Type := {
  llama_model : Type;
  llama_vocab : Type;
  llama_context : Type;
  llama_sampler : Type;
  (* path, n_gpu_layers *)
  llama_model_load_from_file : cbytes -> Z -> option llama_model;
  llama_model_get_vocab : llama_model -> llama_vocab;
  (* model, n_ctx, n_batch, no_perf *)
  llama_init_from_model : llama_model -> Z -> Z -> bool -> option llama_context;
  llama_set_n_threads : llama_context -> Z -> Z -> llama_context;
  hardware_concurrency : Z;
  (* vocab, text, text_len, n_tokens_max, add_special, parse_special:
     return value and the tokens written to the output buffer *)
  llama_tokenize :
    llama_vocab -> cbytes -> Z -> Z -> bool -> bool -> Z * list llama_token;
  (* no_perf *)
  llama_sampler_chain_init : bool -> llama_sampler;
  llama_sampler_init_greedy : llama_sampler;
  llama_sampler_chain_add : llama_sampler -> llama_sampler -> llama_sampler;
  (* chain, context, idx *)
  llama_sampler_sample :
    llama_sampler -> llama_context -> Z -> llama_token * llama_sampler;
  llama_decode : llama_context -> llama_batch -> Z * llama_context;
  llama_vocab_is_eog : llama_vocab -> llama_token -> bool;
  (* vocab, token, buffer length, lstrip, special:
     return value and the bytes written to the buffer *)
  llama_token_to_piece :
    llama_vocab -> llama_token -> Z -> Z -> bool -> Z * cbytes
}.

(** ** Constants of the program *)

Definition n_gpu_layers : Z := 99.
Definition n_ctx : Z := 2048.
Definition n_batch : Z := 512.
Definition n_predict : Z := 64.
Definition sizeof_buf : Z := 128.

Definition END_OF_TURN : cbytes := lit "<end_of_turn>".

Definition MODEL_NOT_INITIALIZED : cbytes := lit "Model not initialized".
Definition TOKENIZATION_FAILED : cbytes := lit "Tokenization failed".

Definition SERVICE_CLASS : cbytes :=
  lit "com/example/llmhub/inference/LlamaInferenceService".
Definition ON_NATIVE_TOKEN : cbytes := lit "onNativeToken".
Definition ON_NATIVE_TOKEN_SIG : cbytes := lit "(Ljava/lang/String;)V".

(** Gemma-style dialogue template of [generateResponse] (lines 84-86). *)
Definition full_prompt (prompt_chars : cbytes) : cbytes :=
  (lit "<start_of_turn>user" ++ [LF]) ++
  c_str prompt_chars ++
  ([LF] ++ lit "<end_of_turn>" ++ [LF] ++ lit "<start_of_turn>model" ++ [LF]).

(** [std::vector<llama_token> v(n)] after the backend wrote [written] into
    [v.data()]: [n] entries, zero where nothing was written. *)
Definition vector_filled (n : Z) (written : list llama_token) : list llama_token :=
  firstn (Z.to_nat n) (written ++ repeat 0 (Z.to_nat n)).

Section Program.

Context {B : Backend}.
Variable env : JNIEnv.

(** ** Observable calls, in program order *)

Inductive event : Type :=
| BackendInit
| ModelLoad (path : cbytes) (gpu_layers : Z)
| ModelFree (m : llama_model)
| ContextInit (m : llama_model) (ctx_len batch_len : Z)
| ContextFree (c : llama_context)
| BackendFree
| SamplerInit
| SamplerFree
| Decode (batch_tokens : Z) (rc : Z)
| Sample (tok : llama_token)
| StoreNul (idx : Z)
| Append (piece : cbytes)
| Sink (jtok : jstring)
| PerfPrint.

(** ** Persistent native objects (lines 14-17) *)

Record session : Type := mkSession {
  g_model : option llama_model;
  g_vocab : option llama_vocab;
  g_ctx : option llama_context
}.

Definition initial_session : session :=
  {| g_model := None; g_vocab := None; g_ctx := None |}.

(** ** initLlama (lines 20-69) *)

Definition initLlama (s : session) (modelPath : jstring)
  : Z * session * list event :=
  let path := GetStringUTFChars modelPath in
  match llama_model_load_from_file path n_gpu_layers with
  | None =>
      (-1,
       {| g_model := None; g_vocab := g_vocab s; g_ctx := g_ctx s |},
       [BackendInit; ModelLoad path n_gpu_layers])
  | Some m =>
      let v := llama_model_get_vocab m in
      match llama_init_from_model m n_ctx n_batch false with
      | None =>
          (-2,
           {| g_model := None; g_vocab := None; g_ctx := None |},
           [BackendInit; ModelLoad path n_gpu_layers;
            ContextInit m n_ctx n_batch; ModelFree m])
      | Some c =>
          let c' := llama_set_n_threads c hardware_concurrency hardware_concurrency in
          (0,
           {| g_model := Some m; g_vocab := Some v; g_ctx := Some c' |},
           [BackendInit; ModelLoad path n_gpu_layers;
            ContextInit m n_ctx n_batch])
      end
  end.

(** ** releaseLlama (lines 184-198) *)

Definition releaseLlama (s : session) : session * list event :=
  let '(ctx1, ev1) :=
    match g_ctx s with
    | Some c => (None, [ContextFree c])
    | None => (g_ctx s, [])
    end in
  let '(model2, vocab2, ev2) :=
    match g_model s with
    | Some m => (None, None, [ModelFree m])
    | None => (g_model s, g_vocab s, [])
    end in
  ({| g_model := model2; g_vocab := vocab2; g_ctx := ctx1 |},
   ev1 ++ ev2 ++ [BackendFree]).

(** ** generateResponse (lines 72-181) *)

(** State carried round the generation loop.  [trace] is the list of calls
    made so far in this [generateResponse] call. *)
Record loop_state : Type := mkLoop {
  n_pos : Z;
  batch : llama_batch;
  result : cbytes;
  ctx : llama_context;
  smpl : llama_sampler;
  trace : list event
}.

Inductive flow : Type :=
| Next (st : loop_state)
| Break (st : loop_state).

(** Line 122: [n_pos + batch.n_tokens < n_prompt + n_predict]. *)
Definition loop_cond (n_prompt : Z) (st : loop_state) : bool :=
  int_add (n_pos st) (n_tokens (batch st)) <? int_add n_prompt n_predict.

(** Lines 155-164: forward the fragment to [onNativeToken] when both the
    class and the static method are found.  This is the native control
    flow, the two null checks.  A lookup that fails also leaves a Java
    exception pending, which the program never clears; what the Java side
    does with it afterwards is not modelled. *)
Definition forward_token (buf : cbytes) : list event :=
  match FindClass env SERVICE_CLASS with
  | Some cls =>
      match GetStaticMethodID env cls ON_NATIVE_TOKEN ON_NATIVE_TOKEN_SIG with
      | Some _ => [Sink (NewStringUTF buf)]
      | None => []
      end
  | None => []
  end.

(** Lines 123-168: one pass through the loop body.  After
    [llama_token_to_piece] returned [n > 0], [buf] holds the [n] bytes the
    backend wrote and the program stores a NUL at index [n]; when
    [n = sizeof buf] that store is one byte past the array, and the byte is
    read back through the same pointer by [strncmp] and [NewStringUTF]. *)
Definition loop_body (vocab : llama_vocab) (st : loop_state) : flow :=
  let '(rc, ctx1) := llama_decode (ctx st) (batch st) in
  let tr1 := trace st ++ [Decode (n_tokens (batch st)) rc] in
  if negb (rc =? 0) then
    Break (mkLoop (n_pos st) (batch st) (result st) ctx1 (smpl st) tr1)
  else
    let n_pos1 := int_add (n_pos st) (n_tokens (batch st)) in
    let '(token_id, smpl1) := llama_sampler_sample (smpl st) ctx1 (-1) in
    let tr2 := tr1 ++ [Sample token_id] in
    if llama_vocab_is_eog vocab token_id then
      Break (mkLoop n_pos1 (batch st) (result st) ctx1 smpl1 tr2)
    else
      let '(n, written) := llama_token_to_piece vocab token_id sizeof_buf 0 true in
      if 0 <? n then
        let buf := firstn (Z.to_nat n) written in
        let tr3 := tr2 ++ [StoreNul n] in
        if strncmp buf END_OF_TURN 13 =? 0 then
          Break (mkLoop n_pos1 (batch st) (result st) ctx1 smpl1 tr3)
        else
          Next (mkLoop n_pos1 (llama_batch_get_one [token_id] 1)
                       (result st ++ buf) ctx1 smpl1
                       (tr3 ++ [Append buf] ++ forward_token buf))
      else
        Next (mkLoop n_pos1 (llama_batch_get_one [token_id] 1)
                     (result st) ctx1 smpl1 tr2).

(** Line 122: the [while] loop.  [None] means the fuel ran out before the
    loop left; [generation_loop_terminates] shows it does not happen with the
    fuel [generateResponse] provides. *)
Fixpoint generation_loop (fuel : nat) (n_prompt : Z) (vocab : llama_vocab)
  (st : loop_state) : option loop_state :=
  if loop_cond n_prompt st then
    match fuel with
    | O => None
    | S fuel' =>
        match loop_body vocab st with
        | Break st' => Some st'
        | Next st' => generation_loop fuel' n_prompt vocab st'
        end
    end
  else Some st.

(** Lines 89-102: two-phase tokenisation.  [Some] carries [n_prompt] and
    the prompt tokens; [None] is either of the two failure exits. *)
Definition tokenize_prompt (vocab : llama_vocab) (text : cbytes)
  : option (Z * list llama_token) :=
  let text_len := wrap32 (Z.of_nat (List.length text)) in
  let n_prompt := int_neg (fst (llama_tokenize vocab text text_len 0 true true)) in
  if n_prompt <=? 0 then None
  else
    let '(r2, written) := llama_tokenize vocab text text_len n_prompt true true in
    if r2 <? 0 then None
    else Some (n_prompt, vector_filled n_prompt written).

(** Lines 104-120: the fresh sampler chain, the prompt-sized first batch,
    the empty result and [n_pos = 0]. *)
Definition loop_start (c : llama_context) (prompt_tokens : list llama_token)
  (n_prompt : Z) : loop_state :=
  let sampler_chain :=
    llama_sampler_chain_add (llama_sampler_chain_init false)
                            llama_sampler_init_greedy in
  mkLoop 0 (llama_batch_get_one prompt_tokens n_prompt) []
         c sampler_chain [SamplerInit].

Definition generateResponse (s : session) (prompt : jstring)
  : option (jstring * session * list event) :=
  match g_ctx s, g_vocab s with
  | Some c, Some vocab =>
      let prompt_chars := GetStringUTFChars prompt in
      match tokenize_prompt vocab (full_prompt prompt_chars) with
      | None => Some (NewStringUTF TOKENIZATION_FAILED, s, [])
      | Some (n_prompt, prompt_tokens) =>
          match generation_loop (Z.to_nat (int_add n_prompt n_predict))
                                n_prompt vocab
                                (loop_start c prompt_tokens n_prompt) with
          | None => None
          | Some st =>
              Some (NewStringUTF (result st),
                    {| g_model := g_model s; g_vocab := g_vocab s;
                       g_ctx := Some (ctx st) |},
                    trace st ++ [SamplerFree; PerfPrint])
          end
      end
  | _, _ => Some (NewStringUTF MODEL_NOT_INITIALIZED, s, [])
  end.

(** The loop as a relation: [loop_run n_prompt vocab st iters st'] holds when
    the loop started in [st] leaves in [st'] after running its body once at
    each state of [iters], in that order.  Every pass has the loop condition
    as a premise. *)
Inductive loop_run (n_prompt : Z) (vocab : llama_vocab)
  : loop_state -> list loop_state -> loop_state -> Prop :=
| run_exit st :
    loop_cond n_prompt st = false ->
    loop_run n_prompt vocab st [] st
| run_break st st' :
    loop_cond n_prompt st = true ->
    loop_body vocab st = Break st' ->
    loop_run n_prompt vocab st [st] st'
| run_next st st1 iters st' :
    loop_cond n_prompt st = true ->
    loop_body vocab st = Next st1 ->
    loop_run n_prompt vocab st1 iters st' ->
    loop_run n_prompt vocab st (st :: iters) st'.

(** [passes n_prompt vocab k st st']: [k] passes of the loop, each of which
    goes on to the next, lead from [st] to [st']. *)
Inductive passes (n_prompt : Z) (vocab : llama_vocab)
  : nat -> loop_state -> loop_state -> Prop :=
| passes_O st : passes n_prompt vocab O st st
| passes_S k st st1 st' :
    loop_cond n_prompt st = true ->
    loop_body vocab st = Next st1 ->
    passes n_prompt vocab k st1 st' ->
    passes n_prompt vocab (S k) st st'.

(** The text a call handed back, when it returned. *)
Definition returned (r : option (jstring * session * list event)) : option jstring :=
  option_map (fun x => fst (fst x)) r.

Definition events_of (r : option (jstring * session * list event)) : list event :=
  match r with
  | Some (_, _, tr) => tr
  | None => []
  end.

(** ** Readings of a trace *)

Definition decode_calls (tr : list event) : nat :=
  List.length (filter (fun e => match e with Decode _ _ => true | _ => false end) tr).

Fixpoint appended (tr : list event) : list cbytes :=
  match tr with
  | [] => []
  | Append p :: tr' => p :: appended tr'
  | _ :: tr' => appended tr'
  end.

Fixpoint delivered (tr : list event) : list jstring :=
  match tr with
  | [] => []
  | Sink j :: tr' => j :: delivered tr'
  | _ :: tr' => delivered tr'
  end.

Fixpoint stores (tr : list event) : list Z :=
  match tr with
  | [] => []
  | StoreNul i :: tr' => i :: stores tr'
  | _ :: tr' => stores tr'
  end.

(** Every [Append p] is immediately followed by the [Sink] of the same
    fragment, and no [Sink] occurs anywhere else. *)
Fixpoint synchronous (tr : list event) : Prop :=
  match tr with
  | [] => True
  | Append p :: tr' =>
      match tr' with
      | Sink j :: tr'' => j = NewStringUTF p /\ synchronous tr''
      | _ => False
      end
  | Sink _ :: _ => False
  | _ :: tr' => synchronous tr'
  end.

(** ** The session state machine *)

Inductive call : Type :=
| CallInit (modelPath : jstring)
| CallGenerate (prompt : jstring)
| CallRelease.

(** Session after one call (a [generateResponse] that did not return
    leaves the session as it was; it always returns, see
    [generateResponse_returns]). *)
Definition exec (s : session) (c : call) : session :=
  match c with
  | CallInit p => snd (fst (initLlama s p))
  | CallGenerate p =>
      match generateResponse s p with
      | Some (_, s', _) => s'
      | None => s
      end
  | CallRelease => fst (releaseLlama s)
  end.

(** States reachable from the initial one by calls among which no
    [initLlama] returned 0. *)
Inductive never_initialized : session -> Prop :=
| ni_initial : never_initialized initial_session
| ni_init_failed s p :
    never_initialized s -> fst (fst (initLlama s p)) <> 0 ->
    never_initialized (exec s (CallInit p))
| ni_generate s p :
    never_initialized s -> never_initialized (exec s (CallGenerate p))
| ni_release s :
    never_initialized s -> never_initialized (exec s CallRelease).

(** The handle invariant: a context only with its model, a vocabulary
    exactly with its model. *)
Definition handles_consistent (s : session) : Prop :=
  (g_ctx s <> None -> g_model s <> None) /\
  (g_vocab s <> None <-> g_model s <> None).

(** Both JNI lookups of [forward_token] succeed. *)
Definition sink_resolves : Prop :=
  exists cls mid,
    FindClass env SERVICE_CLASS = Some cls /\
    GetStaticMethodID env cls ON_NATIVE_TOKEN ON_NATIVE_TOKEN_SIG = Some mid.

Definition flow_state (f : flow) : loop_state :=
  match f with
  | Next st => st
  | Break st => st
  end.

(** Passes the loop can still make from [st]: the distance between the two
    sides of the loop condition. *)
Definition loop_measure (n_prompt : Z) (st : loop_state) : nat :=
  Z.to_nat (int_add n_prompt n_predict
            - int_add (n_pos st) (n_tokens (batch st))).

(** What the accumulated text and the trace of a generation satisfy between
    two passes of the loop. *)
Record loop_invariant (st : loop_state) : Prop := {
  inv_result : result st = List.concat (appended (trace st));
  inv_marker : Forall (fun p => firstn 13 p <> END_OF_TURN) (appended (trace st));
  inv_sink :
    sink_resolves ->
    delivered (trace st) = map NewStringUTF (appended (trace st)) /\
    synchronous (trace st)
}.

End Program.

Arguments event {B}.
Arguments session {B}.
Arguments loop_state {B}.
Arguments flow {B}.
Arguments initial_session {B}.

(** [needle] occurs somewhere in [hay]. *)
Definition occurs_in (needle hay : cbytes) : Prop :=
  exists pre suf, hay = pre ++ needle ++ suf.

Definition nul_free (s : cbytes) : Prop := Forall (fun c => is_nul c = false) s.

(** Two loop states that differ at most in the calls recorded so far. *)
Definition agree_up_to_trace {B : Backend} (a b : loop_state) : Prop :=
  n_pos a = n_pos b /\ batch a = batch b /\ result a = result b /\
  ctx a = ctx b /\ smpl a = smpl b.

Definition flows_agree {B : Backend} (f g : flow) : Prop :=
  match f, g with
  | Next a, Next b => agree_up_to_trace a b
  | Break a, Break b => agree_up_to_trace a b
  | _, _ => False
  end.

(** ** A scripted backend, to run the program on concrete inputs

    The context counts the decode calls that succeeded; the sampler picks
    token [k] after the [k]-th of them; [sc_pieces] lists what
    [llama_token_to_piece] answers for tokens 1, 2, ...  A model file loads
    when its path is not empty, and the model handle is that path. *)
Record script : Type := {
  sc_context : bool;
  sc_prompt_tokens : Z;
  sc_fail_after : option nat;
  sc_eog : llama_token -> bool;
  sc_pieces : list (Z * cbytes)
}.

Definition scripted (sc : script) : Backend := {|
  llama_model := cbytes;
  llama_vocab := unit;
  llama_context := nat;
  llama_sampler := unit;
  llama_model_load_from_file := fun path _ =>
    match path with [] => None | _ => Some path end;
  llama_model_get_vocab := fun _ => tt;
  llama_init_from_model := fun _ _ _ _ =>
    if sc_context sc then Some O else None;
  llama_set_n_threads := fun c _ _ => c;
  hardware_concurrency := 8;
  llama_tokenize := fun _ _ _ n_max _ _ =>
    if n_max <? sc_prompt_tokens sc
    then (- sc_prompt_tokens sc, [])
    else (sc_prompt_tokens sc, repeat 2 (Z.to_nat (sc_prompt_tokens sc)));
  llama_sampler_chain_init := fun _ => tt;
  llama_sampler_init_greedy := tt;
  llama_sampler_chain_add := fun _ _ => tt;
  llama_sampler_sample := fun smp c _ => (Z.of_nat c, smp);
  llama_decode := fun c _ =>
    match sc_fail_after sc with
    | Some k => if Nat.eqb c k then (1, c) else (0, S c)
    | None => (0, S c)
    end;
  llama_vocab_is_eog := fun _ t => sc_eog sc t;
  llama_token_to_piece := fun _ t _ _ _ =>
    nth (Z.to_nat (t - 1)) (sc_pieces sc) (0, [])
|}.

(** A Java side where the class and [onNativeToken] resolve. *)
Definition env_with_sink : JNIEnv :=
  {| FindClass := fun _ => Some 1; GetStaticMethodID := fun _ _ _ => Some 2 |}.

(** The session a successful [initLlama] leaves on the scripted backend. *)
Definition ready_session (sc : script) : @session (scripted sc) :=
  @mkSession (scripted sc) (Some (lit "m.gguf")) (Some tt) (Some O).

Definition hi : jstring := lit "hi".

(** Decode calls of a trace that failed. *)
Definition decode_failures {B : Backend} (tr : list event) : nat :=
  List.length
    (filter (fun e => match e with Decode _ rc => negb (rc =? 0) | _ => false end) tr).

(** "Hi", "!", then an end-of-generation token. *)
Definition plain_script : script :=
  {| sc_context := true; sc_prompt_tokens := 3; sc_fail_after := None;
     sc_eog := fun t => t =? 3;
     sc_pieces := [(2, lit "Hi"); (1, lit "!")] |}.

(** The stop marker in two fragments, then end of generation. *)
Definition split_marker_script : script :=
  {| sc_context := true; sc_prompt_tokens := 3; sc_fail_after := None;
     sc_eog := fun t => t =? 3;
     sc_pieces := [(7, lit "<end_of"); (6, lit "_turn>")] |}.

(** The byte token 0x00, then "b", then end of generation. *)
Definition nul_script : script :=
  {| sc_context := true; sc_prompt_tokens := 3; sc_fail_after := None;
     sc_eog := fun t => t =? 3;
     sc_pieces := [(1, [NUL]); (1, lit "b")] |}.

(** The byte token 0x00, then "b", then a decode call that fails. *)
Definition nul_then_fail_script : script :=
  {| sc_context := true; sc_prompt_tokens := 3; sc_fail_after := Some 2%nat;
     sc_eog := fun _ => false;
     sc_pieces := [(1, [NUL]); (1, lit "b")] |}.

(** A vocabulary that gives no token for any text. *)
Definition no_tokens_script : script :=
  {| sc_context := true; sc_prompt_tokens := 0; sc_fail_after := None;
     sc_eog := fun _ => false; sc_pieces := [] |}.

(** A model that loads but for which no context can be created. *)
Definition no_context_script : script :=
  {| sc_context := false; sc_prompt_tokens := 3; sc_fail_after := None;
     sc_eog := fun _ => false; sc_pieces := [] |}.

(** A first token whose piece fills the 128 bytes of the buffer. *)
Definition full_buffer_script : script :=
  {| sc_context := true; sc_prompt_tokens := 3; sc_fail_after := None;
     sc_eog := fun t => t =? 2;
     sc_pieces := [(128, repeat "a"%char 128)] |}.

(** A first token whose piece needs 200 bytes, more than the buffer has. *)
Definition long_piece_script : script :=
  {| sc_context := true; sc_prompt_tokens := 3; sc_fail_after := None;
     sc_eog := fun t => t =? 2;
     sc_pieces := [(-200, [])] |}.

(** ** Further readings of a trace *)

(** The calls one pass of the generation loop can make. *)
Definition pass_event {B : Backend} (e : event) : bool :=
  match e with
  | Decode _ _ | Sample _ | StoreNul _ | Append _ | Sink _ => true
  | _ => false
  end.

(** Tokens handed to [llama_decode], over all its calls. *)
Fixpoint submitted {B : Backend} (tr : list event) : Z :=
  match tr with
  | [] => 0
  | Decode n _ :: tr' => n + submitted tr'
  | _ :: tr' => submitted tr'
  end.

(** The tokens [llama_sampler_sample] gave, in order. *)
Fixpoint sampled {B : Backend} (tr : list event) : list llama_token :=
  match tr with
  | [] => []
  | Sample t :: tr' => t :: sampled tr'
  | _ :: tr' => sampled tr'
  end.

(** The fragment a sampled token adds to the result, if any: none for an
    end-of-generation token, for a token without a piece in the buffer, and
    for a piece that begins with the stop marker (lines 137-151). *)
Definition accepted_piece {B : Backend} (vocab : llama_vocab)
  (token_id : llama_token) : list cbytes :=
  if llama_vocab_is_eog vocab token_id then []
  else
    let '(n, written) := llama_token_to_piece vocab token_id sizeof_buf 0 true in
    if 0 <? n then
      let buf := firstn (Z.to_nat n) written in
      if strncmp buf END_OF_TURN 13 =? 0 then [] else [buf]
    else [].

Definition count_events {B : Backend} (f : event -> bool) (tr : list event) : nat :=
  List.length (filter f tr).

(** Models the backend loaded, contexts it created, and what was freed. *)
Definition models_loaded {B : Backend} (tr : list event) : nat :=
  count_events
    (fun e => match e with
              | ModelLoad path layers =>
                  match llama_model_load_from_file path layers with
                  | Some _ => true
                  | None => false
                  end
              | _ => false
              end) tr.

Definition contexts_created {B : Backend} (tr : list event) : nat :=
  count_events
    (fun e => match e with
              | ContextInit m ctx_len batch_len =>
                  match llama_init_from_model m ctx_len batch_len false with
                  | Some _ => true
                  | None => false
                  end
              | _ => false
              end) tr.

Definition models_freed {B : Backend} (tr : list event) : nat :=
  count_events (fun e => match e with ModelFree _ => true | _ => false end) tr.

Definition contexts_freed {B : Backend} (tr : list event) : nat :=
  count_events (fun e => match e with ContextFree _ => true | _ => false end) tr.

Definition held {A : Type} (h : option A) : nat :=
  match h with
  | Some _ => 1%nat
  | None => 0%nat
  end.

(** ** Sequences of calls *)

(** One call: the session it leaves and the calls it made. *)
Definition exec_events {B : Backend} (env : JNIEnv) (s : session) (c : call)
  : session * list event :=
  match c with
  | CallInit p => (snd (fst (initLlama s p)), snd (initLlama s p))
  | CallGenerate p =>
      match generateResponse env s p with
      | Some (_, s', tr) => (s', tr)
      | None => (s, [])
      end
  | CallRelease => releaseLlama s
  end.

Fixpoint run {B : Backend} (env : JNIEnv) (s : session) (cs : list call)
  : session * list event :=
  match cs with
  | [] => (s, [])
  | c :: cs' =>
      let '(s1, tr1) := exec_events env s c in
      let '(s2, tr2) := run env s1 cs' in
      (s2, tr1 ++ tr2)
  end.

(** Every [initLlama] of the sequence is called on a session that holds
    neither a model nor a context. *)
Fixpoint disciplined {B : Backend} (env : JNIEnv) (s : session) (cs : list call)
  : Prop :=
  match cs with
  | [] => True
  | c :: cs' =>
      match c with
      | CallInit _ => g_model s = None /\ g_ctx s = None
      | _ => True
      end /\
      disciplined env (fst (exec_events env s c)) cs'
  end.



(** "Hi", then a piece that begins with the stop marker. *)
Definition marker_script : script :=
  {| sc_context := true; sc_prompt_tokens := 3; sc_fail_after := None;
     sc_eog := fun _ => false;
     sc_pieces := [(2, lit "Hi"); (14, lit "<end_of_turn>" ++ [LF])] |}.

(** A piece that holds the stop marker after a space, then end of
    generation. *)
Definition inner_marker_script : script :=
  {| sc_context := true; sc_prompt_tokens := 3; sc_fail_after := None;
     sc_eog := fun t => t =? 2;
     sc_pieces := [(14, lit " <end_of_turn>")] |}.

(** ** Sessions along a sequence of calls *)

(** The session after each call of the sequence, in order. *)
Fixpoint sessions {B : Backend} (env : JNIEnv) (s : session) (cs : list call)
  : list session :=
  match cs with
  | [] => []
  | c :: cs' => exec env s c :: sessions env (exec env s c) cs'
  end.

(** Every [initLlama] of the sequence is called while no model is held. *)
Fixpoint inits_without_model {B : Backend} (env : JNIEnv) (s : session)
  (cs : list call) : Prop :=
  match cs with
  | [] => True
  | c :: cs' =>
      match c with
      | CallInit _ => g_model s = None
      | _ => True
      end /\
      inits_without_model env (exec env s c) cs'
  end.

(** ** Sampler chains *)

(** Modelled from the spec: the stages of the sampler chain of llama.cpp
    ([llama_sampler_chain_init], [llama_sampler_init_greedy],
    [llama_sampler_chain_add], [llama_sampler_sample]), whose code is not in
    the source.  Sections 4.5 (step 4) and 4.6 of the spec give the chain as
    an ordered list of stages applied to the logits of the latest position
    to pick one token id; the greedy stage picks the arg-max over the
    vocabulary logits and uses no randomness.  [stage_dist] stands for a
    stage that does draw at random; the program never builds it. *)
Inductive sampler_stage : Type :=
| stage_greedy
| stage_dist.

(** Modelled from the spec: a sampler chain, its stages in the order they
    were added and the number of random draws made so far. *)
Record sampler_chain : Type := {
  stages : list sampler_stage;
  draws : nat
}.

Section Sampling.

Variable logit : Type.
Variable logit_gt : logit -> logit -> bool.

(** Modelled from the spec: the arg-max over the vocabulary logits, as the
    index of the first greatest logit.  Logits are kept abstract, with the
    comparison [logit_gt] the arg-max uses. *)
Fixpoint arg_max_from (best : Z) (best_logit : logit) (i : Z) (l : list logit) : Z :=
  match l with
  | [] => best
  | x :: l' =>
      if logit_gt x best_logit
      then arg_max_from i x (i + 1) l'
      else arg_max_from best best_logit (i + 1) l'
  end.

(** Modelled from the spec: the token the greedy stage selects. *)
Definition arg_max (l : list logit) : llama_token :=
  match l with
  | [] => -1
  | x :: l' => arg_max_from 0 x 1 l'
  end.

(** The source of randomness of a run: the token its [n]-th random draw
    picks from the given logits. *)
Variable rng : nat -> list logit -> llama_token.

(** Modelled from the spec: [llama_sampler_sample] applies the stages in
    order; the token selected last is the one sampled. *)
Fixpoint run_stages (sts : list sampler_stage) (cand : list logit)
  (selected : llama_token) (n : nat) : llama_token * nat :=
  match sts with
  | [] => (selected, n)
  | stage_greedy :: sts' => run_stages sts' cand (arg_max cand) n
  | stage_dist :: sts' => run_stages sts' cand (rng n cand) (S n)
  end.

(** Modelled from the spec: a backend whose sampler is the chain above,
    reading the logits [logits c idx] of a context; everything else is the
    backend [B0]. *)
Definition with_sampler_chain (B0 : Backend)
  (logits : @llama_context B0 -> Z -> list logit) : Backend := {|
  llama_model := @llama_model B0;
  llama_vocab := @llama_vocab B0;
  llama_context := @llama_context B0;
  llama_sampler := sampler_chain;
  llama_model_load_from_file := @llama_model_load_from_file B0;
  llama_model_get_vocab := @llama_model_get_vocab B0;
  llama_init_from_model := @llama_init_from_model B0;
  llama_set_n_threads := @llama_set_n_threads B0;
  hardware_concurrency := @hardware_concurrency B0;
  llama_tokenize := @llama_tokenize B0;
  llama_sampler_chain_init := fun _ => {| stages := []; draws := O |};
  llama_sampler_init_greedy := {| stages := [stage_greedy]; draws := O |};
  llama_sampler_chain_add := fun chain smp =>
    {| stages := stages chain ++ stages smp; draws := draws chain |};
  llama_sampler_sample := fun chain c idx =>
    let '(t, n) := run_stages (stages chain) (logits c idx) (-1) (draws chain) in
    (t, {| stages := stages chain; draws := n |});
  llama_decode := @llama_decode B0;
  llama_vocab_is_eog := @llama_vocab_is_eog B0;
  llama_token_to_piece := @llama_token_to_piece B0
|}.

End Sampling.



(** A scripted backend with logits: after [k] decode calls the logits are
    [0, ..., 0, 1] with the 1 at index [k]. *)
Definition scripted_logits (c : nat) (idx : Z) : list Z :=
  repeat 0 c ++ [1].

(** Two sources of randomness that disagree on every draw. *)
Definition rng_low (n : nat) (cand : list Z) : llama_token := 0.
Definition rng_high (n : nat) (cand : list Z) : llama_token :=
  Z.of_nat (List.length cand).

(** * Properties *)

(** ** Machine integers *)

Lemma wrap32_in_int (z : Z) : in_int (wrap32 z).
Proof.
  unfold in_int, wrap32, INT_MIN, INT_MAX.
  pose proof (Z.mod_pos_bound (z + 2 ^ 31) (2 ^ 32) ltac:(lia)). lia.
Qed.

Lemma wrap32_small (z : Z) : in_int z -> wrap32 z = z.
Proof.
  unfold in_int, wrap32, INT_MIN, INT_MAX. intros Hz.
  rewrite Z.mod_small by lia. lia.
Qed.

Lemma wrap32_le (z : Z) : INT_MIN <= z -> wrap32 z <= z.
Proof.
  unfold wrap32, INT_MIN. intros Hz.
  pose proof (Z.mod_le (z + 2 ^ 31) (2 ^ 32) ltac:(lia) ltac:(lia)). lia.
Qed.

(** ** C strings *)

Lemma c_str_nul_free (s : cbytes) : nul_free (c_str s).
Proof.
  induction s as [|c t IH]; simpl; [constructor|].
  destruct (is_nul c) eqn:Hc; constructor; assumption.
Qed.

Lemma c_str_of_nul_free (s : cbytes) : nul_free s -> c_str s = s.
Proof.
  induction 1 as [|c t Hc _ IH]; simpl; [reflexivity|].
  rewrite Hc, IH. reflexivity.
Qed.

Lemma c_str_idempotent (s : cbytes) : c_str (c_str s) = c_str s.
Proof. apply c_str_of_nul_free, c_str_nul_free. Qed.

Lemma c_str_app_nul_free (a b : cbytes) :
  nul_free a -> c_str (a ++ b) = a ++ c_str b.
Proof.
  induction 1 as [|c t Hc _ IH]; simpl; [reflexivity|].
  rewrite Hc, IH. reflexivity.
Qed.

Lemma nul_free_app (a b : cbytes) : nul_free a -> nul_free b -> nul_free (a ++ b).
Proof. intros Ha Hb. apply Forall_app. split; assumption. Qed.

Lemma nul_free_concat (l : list cbytes) : Forall nul_free l -> nul_free (List.concat l).
Proof.
  induction 1 as [|p l Hp _ IH]; simpl; [constructor|].
  apply nul_free_app; assumption.
Qed.

Lemma map_c_str_nul_free (l : list cbytes) :
  Forall nul_free l -> map NewStringUTF l = l.
Proof.
  induction 1 as [|p l Hp _ IH]; simpl; [reflexivity|].
  unfold NewStringUTF at 1. rewrite (c_str_of_nul_free p Hp), IH. reflexivity.
Qed.

Lemma strncmp_step (s1 s2 : cbytes) (n : nat) :
  strncmp s1 s2 (S n) =
  if Ascii.eqb (hd NUL s1) (hd NUL s2)
  then if is_nul (hd NUL s1) then 0 else strncmp (tl s1) (tl s2) n
  else uchar (hd NUL s1) - uchar (hd NUL s2).
Proof. reflexivity. Qed.

Lemma uchar_inj (c d : ascii) : uchar c = uchar d -> c = d.
Proof.
  unfold uchar. intros H. apply Nat2Z.inj in H.
  apply (f_equal ascii_of_nat) in H.
  rewrite !ascii_nat_embedding in H. exact H.
Qed.

(** [strncmp] against a NUL-free string of exactly [n] bytes answers 0
    exactly when the first [n] bytes of the other string are that string. *)
Lemma strncmp_zero_iff_prefix (m : cbytes) :
  nul_free m ->
  forall s, strncmp s m (List.length m) = 0 <-> firstn (List.length m) s = m.
Proof.
  induction 1 as [|c m Hc Hm IH]; intros s.
  - split; reflexivity.
  - cbn [List.length]. rewrite strncmp_step. cbn [hd tl].
    destruct (Ascii.eqb (hd NUL s) c) eqn:E.
    + apply Ascii.eqb_eq in E. rewrite E, Hc.
      destruct s as [|d s]; cbn [hd tl firstn] in *.
      * subst c. discriminate Hc.
      * subst d. rewrite IH. split; [intros ->; reflexivity|].
        intros H. injection H. auto.
    + apply Ascii.eqb_neq in E. split.
      * intros H. exfalso. apply E, uchar_inj. lia.
      * intros H. exfalso. apply E.
        destruct s as [|d s]; cbn [hd firstn] in *; [discriminate H|].
        injection H. auto.
Qed.

Lemma END_OF_TURN_nul_free : nul_free END_OF_TURN.
Proof. unfold END_OF_TURN, lit. simpl. repeat constructor. Qed.

Lemma stop_check_iff_prefix (buf : cbytes) :
  (strncmp buf END_OF_TURN 13 =? 0) = true <-> firstn 13 buf = END_OF_TURN.
Proof.
  rewrite Z.eqb_eq.
  exact (strncmp_zero_iff_prefix END_OF_TURN END_OF_TURN_nul_free buf).
Qed.

Section Properties.

Context {B : Backend}.
Variable env : JNIEnv.

(** ** Readings of a trace *)

Lemma decode_calls_app (a b : list event) :
  decode_calls (a ++ b) = (decode_calls a + decode_calls b)%nat.
Proof. unfold decode_calls. rewrite filter_app, length_app. reflexivity. Qed.

Lemma appended_app (a b : list event) :
  appended (a ++ b) = appended a ++ appended b.
Proof.
  induction a as [|e a IH]; simpl; [reflexivity|].
  destruct e; simpl; rewrite ?IH; reflexivity.
Qed.

Lemma delivered_app (a b : list event) :
  delivered (a ++ b) = delivered a ++ delivered b.
Proof.
  induction a as [|e a IH]; simpl; [reflexivity|].
  destruct e; simpl; rewrite ?IH; reflexivity.
Qed.

Lemma stores_app (a b : list event) :
  stores (a ++ b) = stores a ++ stores b.
Proof.
  induction a as [|e a IH]; simpl; [reflexivity|].
  destruct e; simpl; rewrite ?IH; reflexivity.
Qed.

Lemma synchronous_app (a b : list event) :
  synchronous a -> synchronous b -> synchronous (a ++ b).
Proof.
  remember (List.length a) as n eqn:Hn.
  revert a Hn. induction n as [n IH] using lt_wf_ind. intros a Hn Ha Hb.
  destruct a as [|e a]; [exact Hb|].
  destruct e; cbn [app synchronous] in *;
    try (apply (IH (List.length a)); [subst n; simpl; lia | reflexivity | exact Ha | exact Hb]);
    try contradiction.
  destruct a as [|e' a]; [contradiction|].
  destruct e'; try contradiction.
  cbn [app]. destruct Ha as [Hj Ha]. split; [exact Hj|].
  apply (IH (List.length a)); [subst n; simpl; lia | reflexivity | exact Ha | exact Hb].
Qed.

Create Rewrite HintDb trace.
#[local] Hint Rewrite decode_calls_app appended_app delivered_app stores_app
             length_app concat_app map_app : trace.

(** ** One pass through the loop body *)

Ltac body_cases v st :=
  unfold loop_body;
  let rc := fresh "rc" in let c1 := fresh "c1" in
  let tok := fresh "tok" in let s1 := fresh "s1" in
  let n := fresh "n" in let w := fresh "w" in
  destruct (llama_decode (ctx st) (batch st)) as [rc c1] eqn:Hdec;
  destruct (rc =? 0) eqn:Hrc; cbn [negb];
  [ destruct (llama_sampler_sample (smpl st) c1 (-1)) as [tok s1] eqn:Hsmp;
    destruct (llama_vocab_is_eog v tok) eqn:Heog;
    [ | destruct (llama_token_to_piece v tok sizeof_buf 0 true) as [n w] eqn:Hpiece;
        destruct (0 <? n) eqn:Hn;
        [ destruct (strncmp (firstn (Z.to_nat n) w) END_OF_TURN 13 =? 0) eqn:Hcmp | ] ]
  | ].

Lemma forward_token_resolved (buf : cbytes) :
  sink_resolves env -> forward_token env buf = [Sink (NewStringUTF buf)].
Proof.
  intros (cls & mid & Hc & Hm). unfold forward_token. rewrite Hc, Hm. reflexivity.
Qed.

Lemma forward_token_cases (buf : cbytes) :
  forward_token env buf = [Sink (NewStringUTF buf)] \/ forward_token env buf = [].
Proof.
  unfold forward_token.
  destruct (FindClass env SERVICE_CLASS) as [cls|]; [|right; reflexivity].
  destruct (GetStaticMethodID env cls ON_NATIVE_TOKEN ON_NATIVE_TOKEN_SIG);
    [left|right]; reflexivity.
Qed.

Lemma loop_body_decodes_once (v : llama_vocab) (st : loop_state) :
  decode_calls (trace (flow_state (loop_body env v st)))
  = S (decode_calls (trace st)).
Proof.
  body_cases v st; cbn [flow_state trace]; autorewrite with trace;
    try (destruct (forward_token_cases (firstn (Z.to_nat n) w)) as [-> | ->]);
    cbn; lia.
Qed.

Lemma loop_body_appends_at_most_once (v : llama_vocab) (st : loop_state) :
  (List.length (appended (trace (flow_state (loop_body env v st))))
   <= S (List.length (appended (trace st))))%nat.
Proof.
  body_cases v st; cbn [flow_state trace]; autorewrite with trace;
    try (destruct (forward_token_cases (firstn (Z.to_nat n) w)) as [-> | ->]);
    cbn; lia.
Qed.

(** A pass either adds no fragment, or is an accepting pass: it appends one
    fragment that does not begin with the stop marker and forwards it. *)
Lemma loop_body_shape (v : llama_vocab) (st : loop_state) :
  let st' := flow_state (loop_body env v st) in
  (exists q,
      trace st' = trace st ++ q /\ result st' = result st /\
      appended q = [] /\ delivered q = [] /\ synchronous q) \/
  (exists q p,
      loop_body env v st = Next st' /\
      trace st' = trace st ++ q ++ [Append p] ++ forward_token env p /\
      result st' = result st ++ p /\
      firstn 13 p <> END_OF_TURN /\
      appended q = [] /\ delivered q = [] /\ synchronous q).
Proof.
  body_cases v st; cbn [flow_state result trace].
  - left. eexists. rewrite <- app_assoc. repeat split; try reflexivity.
  - left. eexists. rewrite <- !app_assoc. repeat split; try reflexivity.
  - right. exists [Decode (n_tokens (batch st)) rc; Sample tok; StoreNul n].
    exists (firstn (Z.to_nat n) w).
    rewrite <- !app_assoc. repeat split; try reflexivity.
    intros Hp. apply stop_check_iff_prefix in Hp. congruence.
  - left. eexists. rewrite <- app_assoc. repeat split; try reflexivity.
  - left. eexists. repeat split; try reflexivity.
Qed.

Lemma loop_body_preserves_invariant (v : llama_vocab) (st : loop_state) :
  loop_invariant env st -> loop_invariant env (flow_state (loop_body env v st)).
Proof.
  intros [Hres Hmark Hsink].
  destruct (loop_body_shape v st)
    as [(q & Htr & Hr & Ha & Hd & Hs) | (q & p & _ & Htr & Hr & Hp & Ha & Hd & Hs)].
  - split; rewrite Htr; autorewrite with trace; rewrite ?Ha, ?Hd, ?app_nil_r.
    + congruence.
    + assumption.
    + intros Hres'. destruct (Hsink Hres') as [Hdel Hsync]. split.
      * assumption.
      * apply synchronous_app; assumption.
  - assert (Hfw : appended (forward_token env p) = []).
    { destruct (forward_token_cases p) as [-> | ->]; reflexivity. }
    split; rewrite Htr; autorewrite with trace;
      cbn [appended delivered]; rewrite ?Ha, ?Hd, ?Hfw; cbn [app].
    + rewrite Hr, Hres. cbn [List.concat app]. rewrite ?app_nil_r. reflexivity.
    + apply Forall_app. split; [assumption|]. constructor; [assumption|constructor].
    + intros Hres'. destruct (Hsink Hres') as [Hdel Hsync].
      rewrite (forward_token_resolved _ Hres'). cbn [delivered map app]. split.
      * rewrite Hdel. reflexivity.
      * apply synchronous_app; [assumption|].
        apply synchronous_app; [assumption|]. cbn. auto.
Qed.

(** ** The loop *)

Lemma loop_body_next_position (v : llama_vocab) (st st1 : loop_state) :
  loop_body env v st = Next st1 ->
  n_pos st1 = int_add (n_pos st) (n_tokens (batch st)) /\
  exists tok, batch st1 = llama_batch_get_one [tok] 1.
Proof.
  body_cases v st; intros H; inversion H; subst; cbn [n_pos batch];
    split; try reflexivity; eexists; reflexivity.
Qed.

Lemma loop_measure_next (P : Z) (v : llama_vocab) (st st1 : loop_state) :
  loop_cond P st = true -> loop_body env v st = Next st1 ->
  loop_measure P st = S (loop_measure P st1).
Proof.
  intros Hc Hb. apply loop_body_next_position in Hb as [Hpos [tok Hbat]].
  unfold loop_cond in Hc. apply Z.ltb_lt in Hc.
  unfold loop_measure. rewrite Hpos, Hbat. cbn [llama_batch_get_one n_tokens].
  set (x := int_add (n_pos st) (n_tokens (batch st))) in *.
  set (L := int_add P n_predict) in *.
  pose proof (wrap32_in_int (n_pos st + n_tokens (batch st))) as Hx.
  pose proof (wrap32_in_int (P + n_predict)) as HL.
  fold (int_add (n_pos st) (n_tokens (batch st))) in Hx. fold x in Hx.
  fold (int_add P n_predict) in HL. fold L in HL.
  unfold int_add at 1. rewrite wrap32_small by (unfold in_int in *; lia).
  lia.
Qed.

Lemma loop_measure_positive (P : Z) (st : loop_state) :
  loop_cond P st = true -> (0 < loop_measure P st)%nat.
Proof.
  unfold loop_cond, loop_measure. intros Hc. apply Z.ltb_lt in Hc. lia.
Qed.

(** With fuel for [loop_measure] passes the loop leaves. *)
Lemma generation_loop_terminates (P : Z) (v : llama_vocab) (fuel : nat) :
  forall st, (loop_measure P st <= fuel)%nat ->
             exists st', generation_loop env fuel P v st = Some st'.
Proof.
  induction fuel as [|fuel IH]; intros st Hm.
  - cbn [generation_loop]. destruct (loop_cond P st) eqn:Hc.
    + apply loop_measure_positive in Hc. lia.
    + eexists. reflexivity.
  - cbn [generation_loop]. destruct (loop_cond P st) eqn:Hc.
    + destruct (loop_body env v st) as [st1|st1] eqn:Hb.
      * apply IH. rewrite (loop_measure_next P v st st1 Hc Hb) in Hm. lia.
      * eexists. reflexivity.
    + eexists. reflexivity.
Qed.

(** What the loop function computes is a run of the loop relation. *)
Lemma generation_loop_run (P : Z) (v : llama_vocab) (fuel : nat) :
  forall st st', generation_loop env fuel P v st = Some st' ->
                 exists iters, loop_run env P v st iters st'.
Proof.
  induction fuel as [|fuel IH]; intros st st' H; cbn [generation_loop] in H;
    destruct (loop_cond P st) eqn:Hc.
  - discriminate H.
  - inversion H; subst. exists []. constructor. exact Hc.
  - destruct (loop_body env v st) as [st1|st1] eqn:Hb.
    + destruct (IH _ _ H) as [iters Hrun].
      exists (st :: iters). eapply run_next; eassumption.
    + inversion H; subst. exists [st]. apply run_break; assumption.
  - inversion H; subst. exists []. constructor. exact Hc.
Qed.

Lemma loop_run_length (P : Z) (v : llama_vocab) st iters st' :
  loop_run env P v st iters st' -> (List.length iters <= loop_measure P st)%nat.
Proof.
  induction 1 as [st Hc | st st' Hc Hb | st st1 iters st' Hc Hb Hrun IH]; cbn [List.length].
  - lia.
  - apply loop_measure_positive in Hc. lia.
  - rewrite (loop_measure_next P v st st1 Hc Hb). lia.
Qed.

Lemma loop_run_decodes (P : Z) (v : llama_vocab) st iters st' :
  loop_run env P v st iters st' ->
  decode_calls (trace st') = (decode_calls (trace st) + List.length iters)%nat.
Proof.
  induction 1 as [st Hc | st st' Hc Hb | st st1 iters st' Hc Hb Hrun IH]; cbn [List.length].
  - lia.
  - pose proof (loop_body_decodes_once v st) as H. rewrite Hb in H. cbn in H. lia.
  - pose proof (loop_body_decodes_once v st) as H. rewrite Hb in H. cbn in H. lia.
Qed.

Lemma loop_run_appends (P : Z) (v : llama_vocab) st iters st' :
  loop_run env P v st iters st' ->
  (List.length (appended (trace st'))
   <= List.length (appended (trace st)) + List.length iters)%nat.
Proof.
  induction 1 as [st Hc | st st' Hc Hb | st st1 iters st' Hc Hb Hrun IH]; cbn [List.length].
  - lia.
  - pose proof (loop_body_appends_at_most_once v st) as H. rewrite Hb in H. cbn in H. lia.
  - pose proof (loop_body_appends_at_most_once v st) as H. rewrite Hb in H. cbn in H. lia.
Qed.

Lemma loop_run_invariant (P : Z) (v : llama_vocab) st iters st' :
  loop_run env P v st iters st' -> loop_invariant env st -> loop_invariant env st'.
Proof.
  induction 1 as [st Hc | st st' Hc Hb | st st1 iters st' Hc Hb Hrun IH]; intros Hinv.
  - exact Hinv.
  - pose proof (loop_body_preserves_invariant v st Hinv) as H. rewrite Hb in H. exact H.
  - apply IH.
    pose proof (loop_body_preserves_invariant v st Hinv) as H. rewrite Hb in H. exact H.
Qed.

(** Every pass starts in a state where, in plain integers,
    [n_pos + batch.n_tokens < n_prompt + n_predict]. *)
Lemma loop_run_guarded (P : Z) (v : llama_vocab) st iters st' :
  loop_run env P v st iters st' ->
  INT_MIN <= P + n_predict ->
  in_int (n_pos st + n_tokens (batch st)) ->
  Forall (fun i => n_pos i + n_tokens (batch i) < P + n_predict) iters.
Proof.
  intros Hrun HP.
  assert (Hguard : forall s, loop_cond P s = true ->
                             in_int (n_pos s + n_tokens (batch s)) ->
                             n_pos s + n_tokens (batch s) < P + n_predict).
  { intros s Hc Hs. unfold loop_cond, int_add in Hc. apply Z.ltb_lt in Hc.
    rewrite (wrap32_small _ Hs) in Hc.
    pose proof (wrap32_le _ HP). lia. }
  induction Hrun as [st Hc | st st' Hc Hb | st st1 iters st' Hc Hb Hrun IH]; intros Hst.
  - constructor.
  - constructor; [auto|constructor].
  - constructor; [auto|]. apply IH.
    apply loop_body_next_position in Hb as [Hpos [tok Hbat]].
    rewrite Hpos, Hbat. cbn [llama_batch_get_one n_tokens].
    unfold int_add. rewrite (wrap32_small _ Hst).
    pose proof (Hguard st Hc Hst).
    unfold loop_cond, int_add in Hc. apply Z.ltb_lt in Hc.
    rewrite (wrap32_small _ Hst) in Hc.
    pose proof (wrap32_in_int (P + n_predict)).
    unfold in_int in *. lia.
Qed.

(** ** Tokenisation and the start of the loop *)

Lemma tokenize_prompt_some (v : llama_vocab) (text : cbytes) P toks :
  tokenize_prompt v text = Some (P, toks) -> 0 < P /\ in_int P.
Proof.
  unfold tokenize_prompt.
  set (np := int_neg _).
  destruct (np <=? 0) eqn:Hle; [discriminate|].
  destruct (llama_tokenize v text _ np true true) as [r2 written].
  destruct (r2 <? 0); [discriminate|].
  intros H. inversion H; subst. apply Z.leb_gt in Hle.
  split; [lia|]. apply wrap32_in_int.
Qed.

Lemma loop_start_invariant c toks P : loop_invariant env (loop_start c toks P).
Proof.
  split; cbn; [reflexivity | constructor | intros _; split; [reflexivity|exact I]].
Qed.

Lemma loop_start_measure c toks P :
  0 < P -> in_int P -> (loop_measure P (loop_start c toks P) <= Z.to_nat n_predict)%nat.
Proof.
  intros Hpos HP. unfold loop_measure, loop_start. cbn [n_pos batch llama_batch_get_one n_tokens].
  unfold int_add at 2. cbn [Z.add]. rewrite (wrap32_small P HP).
  assert (INT_MIN <= P + n_predict) by (unfold INT_MIN, n_predict; lia).
  pose proof (wrap32_le (P + n_predict) H). unfold int_add. lia.
Qed.

(** ** generateResponse as a whole *)

(** On an initialised session whose prompt tokenises, the call returns what
    a run of the loop from [loop_start] leaves. *)
Lemma generateResponse_ready (s : session) c v (prompt : jstring) P toks :
  g_ctx s = Some c -> g_vocab s = Some v ->
  tokenize_prompt v (full_prompt (GetStringUTFChars prompt)) = Some (P, toks) ->
  exists st iters,
    loop_run env P v (loop_start c toks P) iters st /\
    generateResponse env s prompt =
      Some (NewStringUTF (result st),
            {| g_model := g_model s; g_vocab := g_vocab s; g_ctx := Some (ctx st) |},
            trace st ++ [SamplerFree; PerfPrint]).
Proof.
  intros Hc Hv Htok.
  destruct (tokenize_prompt_some _ _ _ _ Htok) as [Hpos HP].
  destruct (generation_loop_terminates P v (Z.to_nat (int_add P n_predict))
              (loop_start c toks P)) as [st Hst].
  { unfold loop_measure, loop_start. cbn [n_pos batch llama_batch_get_one n_tokens].
    unfold int_add at 2. cbn [Z.add]. rewrite (wrap32_small P HP). lia. }
  destruct (generation_loop_run _ _ _ _ _ Hst) as [iters Hrun].
  exists st, iters. split; [exact Hrun|].
  unfold generateResponse. rewrite Hc, Hv, Htok, Hst. reflexivity.
Qed.

(** Every call of [generateResponse] returns. *)
Lemma generateResponse_returns (s : session) (prompt : jstring) :
  exists r, generateResponse env s prompt = Some r.
Proof.
  destruct (g_ctx s) as [c|] eqn:Hc; [|unfold generateResponse; rewrite Hc; eauto].
  destruct (g_vocab s) as [v|] eqn:Hv; [|unfold generateResponse; rewrite Hc, Hv; eauto].
  destruct (tokenize_prompt v (full_prompt (GetStringUTFChars prompt)))
    as [[P toks]|] eqn:Htok.
  - destruct (generateResponse_ready s c v prompt P toks Hc Hv Htok)
      as (st & iters & _ & H). eauto.
  - unfold generateResponse. rewrite Hc, Hv, Htok. eauto.
Qed.

(** C1 -- For a prompt of [P] tokens and [n_predict = 64], the generation
    loop of [generateResponse] makes a pass only from a state with
    [n_pos + batch.n_tokens < P + n_predict], leaves after at most
    [P + n_predict] decode calls (indeed at most [n_predict]), and appends
    at most [n_predict] fragments to the result, which is their
    concatenation. *)
Theorem generation_is_bounded (s : session) c v (prompt : jstring) P toks :
  g_ctx s = Some c -> g_vocab s = Some v ->
  tokenize_prompt v (full_prompt (GetStringUTFChars prompt)) = Some (P, toks) ->
  exists st iters,
    loop_run env P v (loop_start c toks P) iters st /\
    generateResponse env s prompt =
      Some (NewStringUTF (result st),
            {| g_model := g_model s; g_vocab := g_vocab s; g_ctx := Some (ctx st) |},
            trace st ++ [SamplerFree; PerfPrint]) /\
    Forall (fun i => n_pos i + n_tokens (batch i) < P + n_predict) iters /\
    decode_calls (trace st ++ [SamplerFree; PerfPrint]) = List.length iters /\
    Z.of_nat (List.length iters) <= n_predict /\
    Z.of_nat (List.length iters) <= P + n_predict /\
    Z.of_nat (List.length (appended (trace st ++ [SamplerFree; PerfPrint]))) <= n_predict /\
    result st = List.concat (appended (trace st ++ [SamplerFree; PerfPrint])).
Proof.
  intros Hc Hv Htok.
  destruct (tokenize_prompt_some _ _ _ _ Htok) as [Hpos HP].
  destruct (generateResponse_ready s c v prompt P toks Hc Hv Htok)
    as (st & iters & Hrun & Hgen).
  exists st, iters.
  pose proof (loop_run_length _ _ _ _ _ Hrun) as Hlen.
  pose proof (loop_start_measure c toks P Hpos HP) as Hm.
  pose proof (loop_run_decodes _ _ _ _ _ Hrun) as Hdec.
  pose proof (loop_run_appends _ _ _ _ _ Hrun) as Happ.
  pose proof (loop_run_invariant _ _ _ _ _ Hrun (loop_start_invariant c toks P)) as [Hres _ _].
  rewrite decode_calls_app, appended_app.
  change (decode_calls [SamplerFree; PerfPrint]) with O.
  change (appended [SamplerFree; PerfPrint]) with (@nil cbytes).
  rewrite app_nil_r, Nat.add_0_r.
  change (decode_calls (trace (loop_start c toks P))) with O in Hdec.
  change (appended (trace (loop_start c toks P))) with (@nil cbytes) in Happ.
  cbn [List.length Nat.add] in Hdec, Happ. unfold n_predict in *.
  repeat split; try assumption; try lia.
  apply (loop_run_guarded _ _ _ _ _ Hrun).
  - unfold INT_MIN, n_predict. lia.
  - cbn [loop_start n_pos batch n_tokens llama_batch_get_one].
    unfold in_int in *. lia.
Qed.

(** ** Decode failure *)

Lemma decode_failure_breaks (v : llama_vocab) (st : loop_state) rc c1 :
  llama_decode (ctx st) (batch st) = (rc, c1) -> rc <> 0 ->
  loop_body env v st =
    Break (mkLoop (n_pos st) (batch st) (result st) c1 (smpl st)
                  (trace st ++ [Decode (n_tokens (batch st)) rc])).
Proof.
  intros Hdec Hrc. unfold loop_body. rewrite Hdec.
  destruct (rc =? 0) eqn:E; [apply Z.eqb_eq in E; contradiction|]. reflexivity.
Qed.

Lemma loop_run_deterministic (P : Z) (v : llama_vocab) st i1 s1 :
  loop_run env P v st i1 s1 ->
  forall i2 s2, loop_run env P v st i2 s2 -> i1 = i2 /\ s1 = s2.
Proof.
  induction 1 as [st Hc | st st' Hc Hb | st st1 iters st' Hc Hb Hrun IH];
    intros i2 s2 H2;
    inversion H2 as [? Hc2 | ? ? Hc2 Hb2 | ? st1' iters' ? Hc2 Hb2 Hrun2];
    subst; try congruence.
  - split; reflexivity.
  - split; congruence.
  - assert (st1 = st1') by congruence. subst st1'.
    destruct (IH _ _ Hrun2) as [-> ->]. split; reflexivity.
Qed.

Lemma passes_then_run (P : Z) (v : llama_vocab) k st stk :
  passes env P v k st stk ->
  forall iters st', loop_run env P v stk iters st' ->
                    exists pre, List.length pre = k /\
                                loop_run env P v st (pre ++ iters) st'.
Proof.
  induction 1 as [st | k st st1 stk Hc Hb Hp IH]; intros iters st' Hrun.
  - exists []. split; [reflexivity | exact Hrun].
  - destruct (IH _ _ Hrun) as (pre & Hlen & Hrun').
    exists (st :: pre). split; [cbn; congruence|].
    cbn [app]. eapply run_next; eassumption.
Qed.

Lemma passes_invariant (P : Z) (v : llama_vocab) k st stk :
  passes env P v k st stk -> loop_invariant env st -> loop_invariant env stk.
Proof.
  induction 1 as [st | k st st1 stk Hc Hb _ IH]; intros Hst; [exact Hst|].
  apply IH. pose proof (loop_body_preserves_invariant v st Hst) as H.
  rewrite Hb in H. exact H.
Qed.

Lemma passes_decodes (P : Z) (v : llama_vocab) k st stk :
  passes env P v k st stk ->
  decode_calls (trace stk) = (decode_calls (trace st) + k)%nat.
Proof.
  induction 1 as [st | k st st1 stk Hc Hb _ IH]; [lia|].
  pose proof (loop_body_decodes_once v st) as H. rewrite Hb in H. cbn in H. lia.
Qed.

(** When the decode call of pass [k+1] fails after [k] passes that went on,
    the loop is left at once: the call returns, built from the result as it
    stood after pass [k], and its trace ends with the failed decode. *)
Lemma decode_failure_returns_accumulated
  (s : session) c v (prompt : jstring) P toks k stk rc c1 :
  g_ctx s = Some c -> g_vocab s = Some v ->
  tokenize_prompt v (full_prompt (GetStringUTFChars prompt)) = Some (P, toks) ->
  passes env P v k (loop_start c toks P) stk ->
  loop_cond P stk = true ->
  llama_decode (ctx stk) (batch stk) = (rc, c1) -> rc <> 0 ->
  generateResponse env s prompt =
    Some (NewStringUTF (result stk),
          {| g_model := g_model s; g_vocab := g_vocab s; g_ctx := Some c1 |},
          trace stk ++ [Decode (n_tokens (batch stk)) rc; SamplerFree; PerfPrint]) /\
  result stk = List.concat (appended (trace stk)) /\
  decode_calls (trace stk) = k.
Proof.
  intros Hc Hv Htok Hp Hcond Hdec Hrc.
  destruct (generateResponse_ready s c v prompt P toks Hc Hv Htok)
    as (st & iters & Hrun & Hgen).
  pose proof (decode_failure_breaks v stk rc c1 Hdec Hrc) as Hb.
  destruct (passes_then_run _ _ _ _ _ Hp [stk] _ (run_break _ _ _ _ _ Hcond Hb))
    as (pre & Hlen & Hrun').
  destruct (loop_run_deterministic _ _ _ _ _ Hrun _ _ Hrun') as [_ ->].
  cbn [result ctx trace] in Hgen. rewrite <- app_assoc in Hgen. cbn [app] in Hgen.
  split; [exact Hgen|]. split.
  - apply (passes_invariant _ _ _ _ _ Hp (loop_start_invariant c toks P)).
  - rewrite (passes_decodes _ _ _ _ _ Hp). reflexivity.
Qed.

(** When the text accumulated before the failed decode holds no NUL byte,
    the call returns exactly that text. *)
Lemma decode_failure_returns_nul_free_text
  (s : session) c v (prompt : jstring) P toks k stk rc c1 :
  g_ctx s = Some c -> g_vocab s = Some v ->
  tokenize_prompt v (full_prompt (GetStringUTFChars prompt)) = Some (P, toks) ->
  passes env P v k (loop_start c toks P) stk ->
  loop_cond P stk = true ->
  llama_decode (ctx stk) (batch stk) = (rc, c1) -> rc <> 0 ->
  nul_free (result stk) ->
  returned (generateResponse env s prompt) = Some (result stk).
Proof.
  intros Hc Hv Htok Hp Hcond Hdec Hrc Hnf.
  destruct (decode_failure_returns_accumulated s c v prompt P toks k stk rc c1
              Hc Hv Htok Hp Hcond Hdec Hrc) as [-> _].
  cbn. unfold NewStringUTF. rewrite (c_str_of_nul_free _ Hnf). reflexivity.
Qed.

(** ** Stop marker *)

Lemma stop_marker_breaks (v : llama_vocab) (st : loop_state) c1 tok s1 n w :
  llama_decode (ctx st) (batch st) = (0, c1) ->
  llama_sampler_sample (smpl st) c1 (-1) = (tok, s1) ->
  llama_vocab_is_eog v tok = false ->
  llama_token_to_piece v tok sizeof_buf 0 true = (n, w) ->
  0 < n ->
  firstn 13 (firstn (Z.to_nat n) w) = END_OF_TURN ->
  loop_body env v st =
    Break (mkLoop (int_add (n_pos st) (n_tokens (batch st))) (batch st)
                  (result st) c1 s1
                  (trace st ++ [Decode (n_tokens (batch st)) 0; Sample tok; StoreNul n])).
Proof.
  intros Hdec Hsmp Heog Hpiece Hn Hpre.
  unfold loop_body. rewrite Hdec. cbn [Z.eqb negb]. rewrite Hsmp, Heog, Hpiece.
  apply Z.ltb_lt in Hn. rewrite Hn.
  apply stop_check_iff_prefix in Hpre. rewrite Hpre.
  rewrite <- !app_assoc. reflexivity.
Qed.

(** A pass that leaves the loop is the last pass of the run, and the run
    ends in the state it leaves. *)
Lemma loop_run_nth_break (P : Z) (v : llama_vocab) st iters st' :
  loop_run env P v st iters st' ->
  forall k i j,
    nth_error iters k = Some i -> loop_body env v i = Break j ->
    nth_error iters (S k) = None /\ st' = j.
Proof.
  induction 1 as [st Hc | st st' Hc Hb | st st1 iters st' Hc Hb Hrun IH];
    intros k i j Hk Hj.
  - destruct k; discriminate Hk.
  - destruct k as [|k]; cbn [nth_error] in Hk.
    + injection Hk as <-. split; [reflexivity | congruence].
    + destruct k; discriminate Hk.
  - destruct k as [|k]; cbn [nth_error] in *.
    + injection Hk as <-. congruence.
    + apply (IH k i j Hk Hj).
Qed.

(** C3 (amended) -- When the fragment of a sampled token equals the stop
    marker or begins with it (its first 13 bytes are the marker), the pass
    leaves the loop before appending or forwarding it; so in every
    generation no appended fragment begins with the marker, and the text
    returned is built from the appended fragments only.  In a generation
    the pass of such a token is the last one, and the result returned is
    the result as it stood before that pass. *)
Theorem stop_marker_fragment_is_not_appended
  (s : session) c v (prompt : jstring) P toks :
  g_ctx s = Some c -> g_vocab s = Some v ->
  tokenize_prompt v (full_prompt (GetStringUTFChars prompt)) = Some (P, toks) ->
  (forall st c1 tok s1 n w,
      llama_decode (ctx st) (batch st) = (0, c1) ->
      llama_sampler_sample (smpl st) c1 (-1) = (tok, s1) ->
      llama_vocab_is_eog v tok = false ->
      llama_token_to_piece v tok sizeof_buf 0 true = (n, w) ->
      0 < n ->
      firstn 13 (firstn (Z.to_nat n) w) = END_OF_TURN ->
      exists st', loop_body env v st = Break st' /\
                  result st' = result st /\
                  appended (trace st') = appended (trace st) /\
                  delivered (trace st') = delivered (trace st)) /\
  (exists out s' tr,
    generateResponse env s prompt = Some (out, s', tr) /\
    out = NewStringUTF (List.concat (appended tr)) /\
    Forall (fun p => firstn 13 p <> END_OF_TURN) (appended tr)) /\
  exists st iters,
    loop_run env P v (loop_start c toks P) iters st /\
    returned (generateResponse env s prompt) = Some (NewStringUTF (result st)) /\
    forall k i c1 tok s1 n w,
      nth_error iters k = Some i ->
      llama_decode (ctx i) (batch i) = (0, c1) ->
      llama_sampler_sample (smpl i) c1 (-1) = (tok, s1) ->
      llama_vocab_is_eog v tok = false ->
      llama_token_to_piece v tok sizeof_buf 0 true = (n, w) ->
      0 < n ->
      firstn 13 (firstn (Z.to_nat n) w) = END_OF_TURN ->
      nth_error iters (S k) = None /\
      result st = result i /\
      appended (trace st) = appended (trace i) /\
      delivered (trace st) = delivered (trace i).
Proof.
  intros Hc Hv Htok.
  destruct (generateResponse_ready s c v prompt P toks Hc Hv Htok)
    as (st & iters & Hrun & Hgen).
  split; [|split].
  - intros st0 c1 tok s1 n w Hdec Hsmp Heog Hpiece Hn Hpre.
    eexists. split; [apply (stop_marker_breaks v st0 c1 tok s1 n w); assumption|].
    cbn [result trace]. autorewrite with trace. cbn. rewrite !app_nil_r. auto.
  - pose proof (loop_run_invariant _ _ _ _ _ Hrun (loop_start_invariant c toks P))
      as [Hres Hmark _].
    do 3 eexists. split; [exact Hgen|].
    rewrite appended_app. change (appended [SamplerFree; PerfPrint]) with (@nil cbytes).
    rewrite app_nil_r. split; [congruence | exact Hmark].
  - exists st, iters. split; [exact Hrun|]. split; [rewrite Hgen; reflexivity|].
    intros k i c1 tok s1 n w Hk Hdec Hsmp Heog Hpiece Hn Hpre.
    pose proof (stop_marker_breaks v i c1 tok s1 n w Hdec Hsmp Heog Hpiece Hn Hpre)
      as Hb.
    destruct (loop_run_nth_break _ _ _ _ _ Hrun k i _ Hk Hb) as [Hlast ->].
    split; [exact Hlast|]. cbn [result trace]. autorewrite with trace. cbn.
    rewrite !app_nil_r. auto.
Qed.

(** ** Streaming sink *)

(** In every generation in which the class and the static method of the
    sink are found, [NewStringUTF] is called for the sink right after each
    append, once, in generation order, on the C string read from the
    fragment buffer; and when no appended fragment holds a NUL byte, the
    bytes handed over for the sink, put end to end, are the bytes handed
    over for the return.  This is an equation between bytes, with or
    without a decode failure. *)
Lemma fragments_are_forwarded_in_step
  (s : session) c v (prompt : jstring) P toks :
  sink_resolves env ->
  g_ctx s = Some c -> g_vocab s = Some v ->
  tokenize_prompt v (full_prompt (GetStringUTFChars prompt)) = Some (P, toks) ->
  exists out s' tr,
    generateResponse env s prompt = Some (out, s', tr) /\
    synchronous tr /\
    delivered tr = map NewStringUTF (appended tr) /\
    out = NewStringUTF (List.concat (appended tr)) /\
    (Forall nul_free (appended tr) -> List.concat (delivered tr) = out).
Proof.
  intros Hsink Hc Hv Htok.
  destruct (generateResponse_ready s c v prompt P toks Hc Hv Htok)
    as (st & iters & Hrun & Hgen).
  pose proof (loop_run_invariant _ _ _ _ _ Hrun (loop_start_invariant c toks P))
    as [Hres _ Hs].
  destruct (Hs Hsink) as [Hdel Hsync].
  do 3 eexists. split; [exact Hgen|].
  rewrite appended_app, delivered_app.
  change (appended [SamplerFree; PerfPrint]) with (@nil cbytes).
  change (delivered [SamplerFree; PerfPrint]) with (@nil jstring).
  rewrite !app_nil_r. repeat split.
  - apply synchronous_app; [exact Hsync | exact I].
  - exact Hdel.
  - congruence.
  - intros Hnf. rewrite Hdel, (map_c_str_nul_free _ Hnf), Hres.
    unfold NewStringUTF. symmetry. apply c_str_of_nul_free, nul_free_concat, Hnf.
Qed.

(** ** Tokens without a fragment *)

(** One pass whose decode succeeded and whose sampled token is not
    end-of-generation: the program stores at most the terminator, at index
    [n]; and when [llama_token_to_piece] answered [n <= 0] the pass stores
    nothing, checks no stop marker, leaves the result and the sink
    untouched, and goes on with the sampled token as the next one-token
    batch. *)
Lemma loop_body_skips_token_without_fragment
  (v : llama_vocab) (st : loop_state) c1 tok s1 n w :
  llama_decode (ctx st) (batch st) = (0, c1) ->
  llama_sampler_sample (smpl st) c1 (-1) = (tok, s1) ->
  llama_vocab_is_eog v tok = false ->
  llama_token_to_piece v tok sizeof_buf 0 true = (n, w) ->
  (exists q, trace (flow_state (loop_body env v st)) = trace st ++ q /\
             Forall (fun i => i <= n) (stores q)) /\
  (n <= 0 ->
   loop_body env v st =
     Next (mkLoop (int_add (n_pos st) (n_tokens (batch st)))
                  (llama_batch_get_one [tok] 1) (result st) c1 s1
                  (trace st ++ [Decode (n_tokens (batch st)) 0; Sample tok]))).
Proof.
  intros Hdec Hsmp Heog Hpiece. unfold loop_body.
  rewrite Hdec. cbn [Z.eqb negb]. rewrite Hsmp, Heog, Hpiece. split.
  - destruct (0 <? n) eqn:Hn.
    + destruct (strncmp (firstn (Z.to_nat n) w) END_OF_TURN 13 =? 0);
        cbn [flow_state trace]; rewrite <- !app_assoc; eexists; (split; [reflexivity|]);
        cbn [app stores];
        try (destruct (forward_token_cases (firstn (Z.to_nat n) w)) as [-> | ->]);
        cbn [stores]; repeat constructor; lia.
    + cbn [flow_state trace]. rewrite <- !app_assoc. eexists. split; [reflexivity|].
      cbn. constructor.
  - intros Hle. destruct (0 <? n) eqn:Hn; [apply Z.ltb_lt in Hn; lia|].
    rewrite <- !app_assoc. reflexivity.
Qed.

(** ** Session lifecycle *)

Lemma never_initialized_handles (s : session) :
  never_initialized env s ->
  g_model s = None /\ g_vocab s = None /\ g_ctx s = None.
Proof.
  induction 1 as [| s p _ IH Hrc | s p _ IH | s _ IH].
  - repeat split.
  - destruct IH as (Hm & Hv & Hc). revert Hrc. cbn [exec]. unfold initLlama.
    destruct (llama_model_load_from_file _ _) as [m|].
    + destruct (llama_init_from_model _ _ _ _) as [c|]; cbn.
      * intros Hrc. contradiction Hrc. reflexivity.
      * repeat split.
    + cbn. repeat split; assumption.
  - destruct IH as (Hm & Hv & Hc). cbn [exec]. unfold generateResponse.
    rewrite Hc. repeat split; assumption.
  - destruct IH as (Hm & Hv & Hc). cbn [exec]. unfold releaseLlama.
    rewrite Hm, Hc. cbn. repeat split; assumption.
Qed.

(** C5 -- [generateResponse] called before any [initLlama] returned 0 hands
    back the text "Model not initialized", whatever the prompt; called on an
    initialised session with a prompt for which the size query of
    [llama_tokenize] gives no positive count, or the filling call fails, it
    hands back "Tokenization failed".  In both cases nothing else is done:
    the session is unchanged and no decode, sampler or sink call is made. *)
Theorem generate_sentinels :
  (forall (s : session) (prompt : jstring),
      never_initialized env s ->
      generateResponse env s prompt = Some (lit "Model not initialized", s, [])) /\
  (forall (r : session) c v (prompt : jstring),
      g_ctx r = Some c -> g_vocab r = Some v ->
      (let text := full_prompt (GetStringUTFChars prompt) in
       let len := wrap32 (Z.of_nat (List.length text)) in
       let n_prompt := int_neg (fst (llama_tokenize v text len 0 true true)) in
       n_prompt <= 0 \/ fst (llama_tokenize v text len n_prompt true true) < 0) ->
      generateResponse env r prompt = Some (lit "Tokenization failed", r, [])).
Proof.
  split.
  - intros s prompt Hs.
    destruct (never_initialized_handles s Hs) as (_ & _ & Hctx).
    unfold generateResponse. rewrite Hctx. reflexivity.
  - intros r c v prompt Hc Hv Hfail.
    unfold generateResponse. rewrite Hc, Hv.
    assert (Htok : tokenize_prompt v (full_prompt (GetStringUTFChars prompt)) = None).
    { unfold tokenize_prompt. cbv zeta in Hfail.
      destruct Hfail as [Hle | Hneg].
      - apply Z.leb_le in Hle. rewrite Hle. reflexivity.
      - destruct (_ <=? 0); [reflexivity|].
        destruct (llama_tokenize v _ _ (int_neg _) true true) as [r2 written].
        cbn [fst] in Hneg. apply Z.ltb_lt in Hneg. rewrite Hneg. reflexivity. }
    rewrite Htok. reflexivity.
Qed.

(** C6 (amended) -- From every session state [releaseLlama] frees the
    context (when there is one), then the model (when there is one), then
    shuts the backend down, and leaves no model and no context.  A second
    [releaseLlama], like one on the session never initialised, frees nothing
    and leaves the session as it is, but still makes the one call that
    shuts the backend down.  After two releases [initLlama] answers and
    calls the backend exactly as on the session never initialised; released
    from a consistent session the state is that initial session itself;
    and [initLlama] there returns 0 whenever the model loads and the
    context is created. *)
Theorem release_is_idempotent :
  (forall s : session,
      snd (releaseLlama s) =
        match g_ctx s with Some c0 => [ContextFree c0] | None => [] end ++
        match g_model s with Some m0 => [ModelFree m0] | None => [] end ++
        [BackendFree] /\
      g_ctx (fst (releaseLlama s)) = None /\
      g_model (fst (releaseLlama s)) = None /\
      releaseLlama (fst (releaseLlama s)) = (fst (releaseLlama s), [BackendFree])) /\
  releaseLlama initial_session = (initial_session, [BackendFree]) /\
  (forall (s : session) (path : jstring),
      let s2 := fst (releaseLlama (fst (releaseLlama s))) in
      fst (fst (initLlama s2 path)) = fst (fst (initLlama initial_session path)) /\
      snd (initLlama s2 path) = snd (initLlama initial_session path) /\
      (handles_consistent s ->
       fst (releaseLlama s) = initial_session /\
       initLlama s2 path = initLlama initial_session path)) /\
  (forall (s : session) (path : jstring) m c,
      llama_model_load_from_file (GetStringUTFChars path) n_gpu_layers = Some m ->
      llama_init_from_model m n_ctx n_batch false = Some c ->
      initLlama (fst (releaseLlama (fst (releaseLlama s)))) path =
        (0,
         {| g_model := Some m; g_vocab := Some (llama_model_get_vocab m);
            g_ctx := Some (llama_set_n_threads c hardware_concurrency
                                                hardware_concurrency) |},
         [BackendInit; ModelLoad (GetStringUTFChars path) n_gpu_layers;
          ContextInit m n_ctx n_batch])).
Proof.
  split; [|split; [reflexivity|split]].
  - intros s. unfold releaseLlama. destruct s as [gm gv gc].
    cbn [g_model g_vocab g_ctx].
    destruct gc as [c0|], gm as [m0|]; cbn [fst snd g_model g_vocab g_ctx app];
      repeat split.
  - intros s path. cbv zeta.
    assert (Hrc : forall s1 s2 : session,
               fst (fst (initLlama s1 path)) = fst (fst (initLlama s2 path)) /\
               snd (initLlama s1 path) = snd (initLlama s2 path)).
    { intros s1 s2. unfold initLlama. cbv zeta.
      destruct (llama_model_load_from_file (GetStringUTFChars path) n_gpu_layers)
        as [m|]; [|split; reflexivity].
      destruct (llama_init_from_model m n_ctx n_batch false); split; reflexivity. }
    split; [apply Hrc|]. split; [apply Hrc|].
    intros [Hctx Hvoc].
    assert (Hrel : fst (releaseLlama s) = initial_session).
    { unfold releaseLlama, initial_session. destruct s as [gm gv gc].
      cbn [g_model g_vocab g_ctx] in *.
      destruct gc as [c0|], gm as [m0|]; cbn [fst]; try reflexivity.
      - exfalso. apply Hctx; [discriminate | reflexivity].
      - destruct gv as [v0|]; [|reflexivity].
        exfalso. apply (proj1 Hvoc); [discriminate | reflexivity]. }
    split; [exact Hrel|]. rewrite Hrel. reflexivity.
  - intros s path m c Hload Hctx. unfold releaseLlama.
    destruct s as [gm gv gc]. cbn [g_model g_vocab g_ctx].
    destruct gc as [c0|], gm as [m0|]; cbn [fst snd g_model g_vocab g_ctx];
      unfold initLlama; rewrite Hload, Hctx; reflexivity.
Qed.

(** C7 -- [initLlama] answers -1 when the model does not load and -2 when
    the model loads but the context cannot be created.  In the second case
    the model just loaded is freed and the three handles are null, whatever
    the session held before: [generateResponse] then answers
    "Model not initialized", and [releaseLlama] frees nothing. *)
Theorem context_failure_clears_session (s : session) (path : jstring) m :
  llama_model_load_from_file (GetStringUTFChars path) n_gpu_layers = Some m ->
  llama_init_from_model m n_ctx n_batch false = None ->
  initLlama s path =
    (-2, initial_session,
     [BackendInit; ModelLoad (GetStringUTFChars path) n_gpu_layers;
      ContextInit m n_ctx n_batch; ModelFree m]) /\
  (forall s0 p0,
      llama_model_load_from_file (GetStringUTFChars p0) n_gpu_layers = None ->
      fst (fst (initLlama s0 p0)) = -1) /\
  (forall s0 p0, fst (fst (initLlama s0 p0)) = 0 ->
                 g_model (snd (fst (initLlama s0 p0))) <> None /\
                 g_ctx (snd (fst (initLlama s0 p0))) <> None) /\
  (forall prompt,
      generateResponse env (snd (fst (initLlama s path))) prompt =
        Some (lit "Model not initialized", initial_session, [])) /\
  releaseLlama (snd (fst (initLlama s path))) = (initial_session, [BackendFree]).
Proof.
  intros Hload Hctx.
  assert (Hinit : initLlama s path =
                  (-2, initial_session,
                   [BackendInit; ModelLoad (GetStringUTFChars path) n_gpu_layers;
                    ContextInit m n_ctx n_batch; ModelFree m])).
  { unfold initLlama. rewrite Hload, Hctx. reflexivity. }
  rewrite Hinit. cbn [fst snd].
  split; [reflexivity|]. split; [|split; [|split]].
  - intros s0 p0 H0. unfold initLlama. rewrite H0. reflexivity.
  - intros s0 p0. unfold initLlama. cbv zeta.
    destruct (llama_model_load_from_file (GetStringUTFChars p0) n_gpu_layers)
      as [m0|]; [|cbn; discriminate].
    destruct (llama_init_from_model m0 n_ctx n_batch false); cbn; [|discriminate].
    intros _. split; discriminate.
  - intros prompt. reflexivity.
  - reflexivity.
Qed.

(** ** The handle invariant *)

(** [generateResponse] replaces at most the state of the context. *)
Lemma generateResponse_keeps_handles (s : session) (p : jstring) out s' tr :
  generateResponse env s p = Some (out, s', tr) ->
  g_model s' = g_model s /\ g_vocab s' = g_vocab s /\
  (g_ctx s = None -> g_ctx s' = None).
Proof.
  unfold generateResponse.
  destruct (g_ctx s) as [c0|] eqn:Ec.
  - destruct (g_vocab s) as [v0|] eqn:Ev.
    + destruct (tokenize_prompt v0 _) as [[P toks]|].
      * destruct (generation_loop _ _ _ _ _) as [st|]; [|discriminate].
        intros H. inversion H; subst. cbn. repeat split; auto. discriminate.
      * intros H. inversion H; subst. repeat split; auto. congruence.
    + intros H. inversion H; subst. repeat split; auto. congruence.
  - intros H. inversion H; subst. repeat split; auto.
Qed.

Lemma initial_session_consistent : handles_consistent (@initial_session B).
Proof. split; [|split]; cbn; intros H; contradiction H; reflexivity. Qed.

(** One call keeps the handles consistent, when it is a [generateResponse],
    a [releaseLlama], or an [initLlama] called while no model is held. *)
Lemma exec_keeps_handles_consistent (s : session) (c : call) :
  handles_consistent s ->
  (forall p, c = CallInit p -> g_model s = None) ->
  handles_consistent (exec env s c).
Proof.
  intros [Hctx Hvoc] Hinit. destruct c as [p | p |].
  - specialize (Hinit p eq_refl).
    assert (Hv : g_vocab s = None).
    { destruct (g_vocab s) eqn:E; [|reflexivity].
      exfalso. apply (proj1 Hvoc); [discriminate | exact Hinit]. }
    assert (Hc : g_ctx s = None).
    { destruct (g_ctx s) eqn:E; [|reflexivity].
      exfalso. apply Hctx; [discriminate | exact Hinit]. }
    cbn [exec]. unfold initLlama.
    destruct (llama_model_load_from_file _ _) as [m|].
    + destruct (llama_init_from_model _ _ _ _); cbn; (split; [|split]);
        cbn; try discriminate; auto.
    + cbn. rewrite Hv, Hc. split; [|split]; cbn; auto.
  - cbn [exec]. destruct (generateResponse_returns s p) as [[[out s'] tr] Hgen].
    rewrite Hgen.
    destruct (generateResponse_keeps_handles s p out s' tr Hgen) as (Hm & Hv & Hc).
    split; [|split]; rewrite ?Hm, ?Hv.
    + intros H. apply Hctx. intros E. apply H, Hc, E.
    + apply Hvoc.
    + apply Hvoc.
  - cbn [exec]. unfold releaseLlama. destruct s as [gm gv gc].
    cbn [g_model g_vocab g_ctx] in *.
    destruct gc as [c0|], gm as [m0|]; cbn; (split; [|split]);
      try (intros H; exact H); try tauto; apply Hvoc.
Qed.

End Properties.

(** ** Determinism *)

Section Determinism.

Context {B : Backend}.

Lemma loop_body_agree (env1 env2 : JNIEnv) (v : llama_vocab) (a b : loop_state) :
  agree_up_to_trace a b ->
  flows_agree (loop_body env1 v a) (loop_body env2 v b).
Proof.
  destruct a as [pa ba ra ca sa ta], b as [pb bb rb cb sb tb].
  unfold agree_up_to_trace. cbn [n_pos batch result ctx smpl].
  intros (-> & -> & -> & -> & ->).
  unfold loop_body. cbn [n_pos batch result ctx smpl trace].
  destruct (llama_decode cb bb) as [rc c1].
  destruct (rc =? 0); cbn [negb]; [|repeat split].
  destruct (llama_sampler_sample sb c1 (-1)) as [tok s1].
  destruct (llama_vocab_is_eog v tok); [repeat split|].
  destruct (llama_token_to_piece v tok sizeof_buf 0 true) as [n w].
  destruct (0 <? n); [|repeat split].
  destruct (strncmp (firstn (Z.to_nat n) w) END_OF_TURN 13 =? 0); repeat split.
Qed.

Lemma generation_loop_agree (env1 env2 : JNIEnv) (P : Z) (v : llama_vocab)
  (fuel : nat) :
  forall a b, agree_up_to_trace a b ->
    match generation_loop env1 fuel P v a, generation_loop env2 fuel P v b with
    | Some x, Some y => agree_up_to_trace x y
    | None, None => True
    | _, _ => False
    end.
Proof.
  induction fuel as [|fuel IH]; intros a b Hab; cbn [generation_loop];
    assert (Hc : loop_cond P a = loop_cond P b)
      by (unfold loop_cond; destruct Hab as (-> & -> & _); reflexivity);
    rewrite Hc; destruct (loop_cond P b); try exact Hab; try exact I.
  pose proof (loop_body_agree env1 env2 v a b Hab) as Hf.
  destruct (loop_body env1 v a) as [a1|a1], (loop_body env2 v b) as [b1|b1];
    cbn [flows_agree] in Hf; try contradiction.
  - apply IH. exact Hf.
  - exact Hf.
Qed.

(** What a call returns is read off the context state and the vocabulary
    alone: the model handle and the Java side behind the sink do not enter
    it. *)
Lemma generateResponse_reads_context_and_vocabulary
  (env1 env2 : JNIEnv) (s1 s2 : session) (prompt : jstring) :
  g_ctx s1 = g_ctx s2 -> g_vocab s1 = g_vocab s2 ->
  exists out s1' s2' tr1 tr2,
    generateResponse env1 s1 prompt = Some (out, s1', tr1) /\
    generateResponse env2 s2 prompt = Some (out, s2', tr2) /\
    g_ctx s1' = g_ctx s2'.
Proof.
  intros Hc Hv. unfold generateResponse. rewrite <- Hc, <- Hv.
  destruct (g_ctx s1) as [c|] eqn:Ec;
    [|do 5 eexists; split; [reflexivity|]; split; [reflexivity|congruence]].
  destruct (g_vocab s1) as [v|] eqn:Ev;
    [|do 5 eexists; split; [reflexivity|]; split; [reflexivity|congruence]].
  destruct (tokenize_prompt v (full_prompt (GetStringUTFChars prompt)))
    as [[P toks]|] eqn:Htok;
    [|do 5 eexists; split; [reflexivity|]; split; [reflexivity|congruence]].
  destruct (tokenize_prompt_some _ _ _ _ Htok) as [Hpos HP].
  destruct (generation_loop_terminates env1 P v (Z.to_nat (int_add P n_predict))
              (loop_start c toks P)) as [st1 Hst1].
  { unfold loop_measure, loop_start. cbn [n_pos batch llama_batch_get_one n_tokens].
    unfold int_add at 2. cbn [Z.add]. rewrite (wrap32_small P HP). lia. }
  pose proof (generation_loop_agree env1 env2 P v (Z.to_nat (int_add P n_predict))
                (loop_start c toks P) (loop_start c toks P)) as Hag.
  rewrite Hst1 in *.
  destruct (generation_loop env2 _ P v (loop_start c toks P)) as [st2|];
    [|exfalso; apply Hag; repeat split].
  destruct Hag as (_ & _ & Hres & Hctx & _); [repeat split|].
  do 5 eexists. split; [reflexivity|]. split.
  - rewrite Hres. reflexivity.
  - cbn. congruence.
Qed.

End Determinism.

(** * The properties on concrete runs *)

(** The plain script: three prompt tokens, a run within the bounds. *)
Lemma generation_is_bounded_witness :
  tokenize_prompt (B:=scripted plain_script) tt (full_prompt (GetStringUTFChars hi))
    = Some (3, [2; 2; 2]) /\
  exists st iters,
    loop_run (B:=scripted plain_script) env_with_sink 3 tt
             (loop_start (B:=scripted plain_script) O [2; 2; 2] 3) iters st /\
    returned (generateResponse env_with_sink (ready_session plain_script) hi)
      = Some (NewStringUTF (result st)) /\
    Z.of_nat (List.length iters) <= 3 + n_predict.
Proof.
  split; [reflexivity|].
  destruct (generation_is_bounded (B:=scripted plain_script) env_with_sink
              (ready_session plain_script) O tt hi 3 [2; 2; 2]
              eq_refl eq_refl eq_refl)
    as (st & iters & Hrun & Hgen & _ & _ & _ & Hlen & _).
  exists st, iters. split; [exact Hrun|]. split; [|exact Hlen].
  rewrite Hgen. reflexivity.
Defined.

(** C2 -- The byte token 0x00 is sampled first, then "b", and the third
    decode call fails.  The accumulated result is the two bytes 0x00 'b';
    the call returns the empty text, because [NewStringUTF] reads the
    result as a C string. *)
Theorem decode_failure_after_nul_returns_less :
  let r := generateResponse (B:=scripted nul_then_fail_script) env_with_sink
             (ready_session nul_then_fail_script) hi in
  events_of r =
    [SamplerInit;
     Decode 3 0; Sample 1; StoreNul 1; Append [NUL]; Sink [];
     Decode 1 0; Sample 2; StoreNul 1; Append (lit "b"); Sink (lit "b");
     Decode 1 1; SamplerFree; PerfPrint] /\
  List.concat (appended (events_of r)) = NUL :: lit "b" /\
  returned r = Some [].
Proof. vm_compute. repeat split. Qed.

(** The stop marker arrives as "<end_of" and "_turn>": both fragments are
    appended and the text returned is the marker itself. *)
Lemma split_marker_reaches_output :
  let r := generateResponse (B:=scripted split_marker_script) env_with_sink
             (ready_session split_marker_script) hi in
  appended (events_of r) = [lit "<end_of"; lit "_turn>"] /\
  exists out, returned r = Some out /\ occurs_in END_OF_TURN out.
Proof.
  split; [vm_compute; reflexivity|].
  exists END_OF_TURN. split; [vm_compute; reflexivity|].
  exists [], []. reflexivity.
Qed.

(** "Hi", then a piece that begins with the stop marker: the pass of the
    second token leaves the loop with the result still "Hi", it is the last
    pass of the run, and "Hi" is what the call returns. *)
Lemma stop_marker_fragment_is_not_appended_witness :
  (exists st',
      loop_body (B:=scripted marker_script) env_with_sink tt
        (mkLoop (B:=scripted marker_script) 3 (llama_batch_get_one [1] 1)
                (lit "Hi") 1%nat tt [])
      = Break st' /\
      result st' = lit "Hi") /\
  (exists out s' tr,
    generateResponse (B:=scripted marker_script) env_with_sink
      (ready_session marker_script) hi = Some (out, s', tr) /\
    out = lit "Hi" /\
    Forall (fun p => firstn 13 p <> END_OF_TURN) (appended tr)) /\
  exists st iters,
    loop_run (B:=scripted marker_script) env_with_sink 3 tt
             (loop_start (B:=scripted marker_script) O [2; 2; 2] 3) iters st /\
    List.length iters = 2%nat /\
    result st = lit "Hi" /\
    appended (trace st) = [lit "Hi"] /\
    delivered (trace st) = [lit "Hi"].
Proof.
  destruct (stop_marker_fragment_is_not_appended (B:=scripted marker_script)
              env_with_sink (ready_session marker_script) O tt hi 3 [2; 2; 2]
              eq_refl eq_refl eq_refl)
    as (Hpass & (out & s' & tr & Hgen & Hout & Hmark) & (st & iters & Hrun & _ & Hstop)).
  split; [|split].
  - destruct (Hpass (mkLoop (B:=scripted marker_script) 3
                            (llama_batch_get_one [1] 1) (lit "Hi") 1%nat tt [])
                    2%nat 2 tt 14 (lit "<end_of_turn>" ++ [LF])
                    eq_refl eq_refl eq_refl eq_refl eq_refl eq_refl)
      as (st' & Hb & Hr & _).
    exists st'. split; assumption.
  - exists out, s', tr. split; [exact Hgen|]. split; [|exact Hmark].
    pose proof Hgen as H. vm_compute in H. injection H as H1 _ _.
    symmetry. exact H1.
  - exists st, iters. split; [exact Hrun|].
    inversion Hrun as [? Hc | ? ? Hc Hb | ? st1 iters1 ? Hc Hb Hr]; subst;
      [vm_compute in Hc; discriminate Hc | vm_compute in Hb; discriminate Hb |].
    vm_compute in Hb. injection Hb as <-.
    assert (H1 : exists rest, iters1 = 
               mkLoop (B:=scripted marker_script) 3 (llama_batch_get_one [1] 1)
                 (lit "Hi") 1%nat tt
                 [SamplerInit; Decode 3 0; Sample 1; StoreNul 2;
                  Append (lit "Hi"); Sink (lit "Hi")] :: rest).
    { inversion Hr as [? Hc1 | ? ? Hc1 Hb1 | ? ? ? ? Hc1 Hb1 Hr1]; subst;
        [vm_compute in Hc1; discriminate Hc1 | |]; eexists; reflexivity. }
    destruct H1 as [rest ->].
    destruct (Hstop 1%nat _ 2%nat 2 tt 14 (lit "<end_of_turn>" ++ [LF])
                    eq_refl eq_refl eq_refl eq_refl eq_refl eq_refl eq_refl)
      as (Hlast & Hres & Happ & Hdel).
    cbn [nth_error] in Hlast. destruct rest; [|discriminate Hlast].
    split; [reflexivity|]. split; [exact Hres|]. split; [exact Happ | exact Hdel].
Defined.

(** A piece that holds the stop marker after a space is appended whole. *)
Lemma marker_inside_fragment_reaches_output :
  let r := generateResponse (B:=scripted inner_marker_script) env_with_sink
             (ready_session inner_marker_script) hi in
  appended (events_of r) = [lit " <end_of_turn>"] /\
  exists out, returned r = Some out /\ occurs_in END_OF_TURN out.
Proof.
  split; [vm_compute; reflexivity|].
  exists (lit " <end_of_turn>"). split; [vm_compute; reflexivity|].
  exists (lit " "), []. reflexivity.
Qed.

(** C4 -- The byte token 0x00 is sampled first, then "b", then an
    end-of-generation token; the sink resolves and no decode call fails.
    Both fragments are appended.  [NewStringUTF] for the sink reads "" and
    then "b"; [NewStringUTF] for the return reads "": the fragments
    delivered, put end to end, are "b", and the text returned is empty. *)
Theorem nul_fragment_parts_stream_and_return :
  let r := generateResponse (B:=scripted nul_script) env_with_sink
             (ready_session nul_script) hi in
  sink_resolves env_with_sink /\
  decode_failures (events_of r) = O /\
  appended (events_of r) = [[NUL]; lit "b"] /\
  delivered (events_of r) = [[]; lit "b"] /\
  returned r = Some [] /\
  List.concat (delivered (events_of r)) <> [].
Proof.
  cbv zeta. split; [exists 1, 2; split; reflexivity|].
  vm_compute. repeat split. discriminate.
Qed.

(** An ordinary prompt on a session whose only [initLlama] failed and that
    was then released; and a ready session whose vocabulary gives no
    token. *)
Lemma generate_sentinels_witness :
  (let s := exec (B:=scripted plain_script) env_with_sink
                 (exec env_with_sink initial_session (CallInit [])) CallRelease in
   generateResponse env_with_sink s hi
   = Some (lit "Model not initialized", s, [])) /\
  generateResponse (B:=scripted no_tokens_script) env_with_sink
    (ready_session no_tokens_script) hi
  = Some (lit "Tokenization failed", ready_session no_tokens_script, []).
Proof.
  split.
  - cbv zeta.
    apply (proj1 (generate_sentinels (B:=scripted plain_script) env_with_sink)).
    apply ni_release. apply ni_init_failed; [apply ni_initial|].
    vm_compute. discriminate.
  - apply (proj2 (generate_sentinels (B:=scripted no_tokens_script) env_with_sink)
             (ready_session no_tokens_script) O tt hi).
    + reflexivity.
    + reflexivity.
    + left. vm_compute. discriminate.
Defined.

(** Releasing a session never initialised, or one already released, still
    calls [llama_backend_free]. *)
Lemma release_of_fresh_session_calls_the_backend :
  snd (releaseLlama (@initial_session (scripted plain_script))) = [BackendFree] /\
  snd (releaseLlama (fst (releaseLlama (ready_session plain_script))))
  = [BackendFree] /\
  snd (releaseLlama (@initial_session (scripted plain_script))) <> [].
Proof. repeat split. discriminate. Qed.

(** Releasing a ready session twice, then initialising again. *)
Lemma release_is_idempotent_witness :
  fst (releaseLlama (ready_session plain_script)) = initial_session /\
  fst (fst (initLlama (B:=scripted plain_script)
              (fst (releaseLlama (fst (releaseLlama (ready_session plain_script)))))
              (lit "m.gguf"))) = 0.
Proof.
  destruct (release_is_idempotent (B:=scripted plain_script))
    as (_ & _ & Hre & Hinit).
  split.
  - apply (Hre (ready_session plain_script) []).
    split; [|split]; intros _; discriminate.
  - rewrite (Hinit (ready_session plain_script) (lit "m.gguf") (lit "m.gguf") O
               eq_refl eq_refl).
    reflexivity.
Defined.

(** A model that loads, a context that cannot be created. *)
Lemma context_failure_clears_session_witness :
  initLlama (B:=scripted no_context_script) (ready_session no_context_script)
            (lit "m.gguf")
  = (-2, initial_session,
     [BackendInit; ModelLoad (lit "m.gguf") n_gpu_layers;
      ContextInit (B:=scripted no_context_script) (lit "m.gguf") n_ctx n_batch;
      ModelFree (B:=scripted no_context_script) (lit "m.gguf")]).
Proof.
  apply (context_failure_clears_session (B:=scripted no_context_script)
           env_with_sink (ready_session no_context_script) (lit "m.gguf")
           (lit "m.gguf") eq_refl eq_refl).
Defined.

(** A fragment that fills the buffer: the terminator is stored at index
    [sizeof buf], the first byte after the array. *)
Lemma terminator_store_at_buffer_size :
  stores (events_of (generateResponse (B:=scripted full_buffer_script)
                       env_with_sink (ready_session full_buffer_script) hi))
  = [sizeof_buf].
Proof. vm_compute. reflexivity. Qed.

(** [initLlama] succeeds, then is called again with a path that does not
    load: the context and the vocabulary stay, without a model. *)
Lemma failed_reinit_breaks_handle_invariant :
  let s1 := exec (B:=scripted plain_script) env_with_sink initial_session
                 (CallInit (lit "m.gguf")) in
  let s2 := exec env_with_sink s1 (CallInit []) in
  handles_consistent s1 /\
  g_model s2 = None /\ g_vocab s2 = Some tt /\ g_ctx s2 = Some O /\
  ~ handles_consistent s2.
Proof.
  cbv zeta. split; [|split; [|split; [|split]]]; try reflexivity.
  - split; [|split]; intros _; discriminate.
  - intros [Hctx _]. apply Hctx; [discriminate | reflexivity].
Qed.

(** * Further properties of the three entry points *)

Section Generation.

Context {B : Backend}.
Variable env : JNIEnv.

Lemma submitted_app (a b : list event) :
  submitted (a ++ b) = submitted a + submitted b.
Proof.
  induction a as [|e a IH]; cbn [app submitted]; [reflexivity|].
  destruct e; rewrite ?IH; lia.
Qed.

Lemma sampled_app (a b : list event) : sampled (a ++ b) = sampled a ++ sampled b.
Proof.
  induction a as [|e a IH]; cbn [app sampled]; [reflexivity|].
  destruct e; rewrite ?IH; reflexivity.
Qed.

Lemma forward_token_quiet (buf : cbytes) :
  Forall (fun e => pass_event e = true) (forward_token env buf) /\
  submitted (forward_token env buf) = 0 /\
  sampled (forward_token env buf) = [].
Proof.
  destruct (forward_token_cases env buf) as [-> | ->]; repeat split; repeat constructor.
Qed.

Ltac pass_cases v st :=
  unfold loop_body;
  let rc := fresh "rc" in let c1 := fresh "c1" in
  let tok := fresh "tok" in let s1 := fresh "s1" in
  let n := fresh "n" in let w := fresh "w" in
  destruct (llama_decode (ctx st) (batch st)) as [rc c1] eqn:Hdec;
  destruct (rc =? 0) eqn:Hrc; cbn [negb];
  [ destruct (llama_sampler_sample (smpl st) c1 (-1)) as [tok s1] eqn:Hsmp;
    destruct (llama_vocab_is_eog v tok) eqn:Heog;
    [ | destruct (llama_token_to_piece v tok sizeof_buf 0 true) as [n w] eqn:Hpiece;
        destruct (0 <? n) eqn:Hn;
        [ destruct (strncmp (firstn (Z.to_nat n) w) END_OF_TURN 13 =? 0) eqn:Hcmp | ] ]
  | ].

(** A pass adds only calls of a pass to the trace. *)
Lemma loop_body_pass_events (v : llama_vocab) (st : loop_state) :
  exists q, trace (flow_state (loop_body env v st)) = trace st ++ q /\
            Forall (fun e => pass_event e = true) q.
Proof.
  pass_cases v st; cbn [flow_state trace]; rewrite <- ?app_assoc;
    eexists; (split; [reflexivity|]);
    repeat (apply Forall_app; split); repeat constructor;
    apply (forward_token_quiet (firstn (Z.to_nat n) w)).
Qed.

(** A pass hands the tokens of its batch to [llama_decode], once. *)
Lemma loop_body_submits (v : llama_vocab) (st : loop_state) :
  submitted (trace (flow_state (loop_body env v st)))
  = submitted (trace st) + n_tokens (batch st).
Proof.
  pass_cases v st; cbn [flow_state trace]; rewrite !submitted_app;
    cbn [submitted];
    try (destruct (forward_token_quiet (firstn (Z.to_nat n) w)) as (_ & -> & _));
    lia.
Qed.

(** The fragment a pass appends is the one its sampled token is accepted
    with. *)
Lemma loop_body_provenance (v : llama_vocab) (st : loop_state) :
  appended (trace st) = flat_map (accepted_piece v) (sampled (trace st)) ->
  appended (trace (flow_state (loop_body env v st)))
  = flat_map (accepted_piece v) (sampled (trace (flow_state (loop_body env v st)))).
Proof.
  intros Hinv.
  pass_cases v st; cbn [flow_state trace];
    rewrite ?appended_app, ?sampled_app, ?flat_map_app;
    try (destruct (forward_token_quiet (firstn (Z.to_nat n) w)) as (_ & _ & ->);
         assert (Ha : appended (forward_token env (firstn (Z.to_nat n) w)) = [])
           by (destruct (forward_token_cases env (firstn (Z.to_nat n) w))
                 as [-> | ->]; reflexivity);
         rewrite Ha);
    cbn [appended sampled flat_map app]; rewrite ?app_nil_r, <- ?Hinv;
    try reflexivity;
    unfold accepted_piece; rewrite Heog; try rewrite Hpiece, Hn; try rewrite Hcmp;
    rewrite ?app_nil_r; reflexivity.
Qed.

(** Whatever every pass keeps holds when the loop is left. *)
Lemma loop_run_rule (I : loop_state -> Prop) (P : Z) (v : llama_vocab) :
  (forall st, I st -> I (flow_state (loop_body env v st))) ->
  forall st iters st', loop_run env P v st iters st' -> I st -> I st'.
Proof.
  intros Hstep st iters st' Hrun.
  induction Hrun as [st Hc | st st' Hc Hb | st st1 iters st' Hc Hb Hrun IH]; intros Hst.
  - exact Hst.
  - specialize (Hstep st Hst). rewrite Hb in Hstep. exact Hstep.
  - apply IH. specialize (Hstep st Hst). rewrite Hb in Hstep. exact Hstep.
Qed.

(** The three outcomes of a call. *)
Lemma generateResponse_cases (s : session) (prompt : jstring) :
  (generateResponse env s prompt = Some (lit "Model not initialized", s, [])) \/
  (generateResponse env s prompt = Some (lit "Tokenization failed", s, [])) \/
  (exists c v P toks st iters,
      g_ctx s = Some c /\ g_vocab s = Some v /\
      tokenize_prompt v (full_prompt (GetStringUTFChars prompt)) = Some (P, toks) /\
      loop_run env P v (loop_start c toks P) iters st /\
      generateResponse env s prompt =
        Some (NewStringUTF (result st),
              {| g_model := g_model s; g_vocab := g_vocab s; g_ctx := Some (ctx st) |},
              trace st ++ [SamplerFree; PerfPrint])).
Proof.
  destruct (g_ctx s) as [c|] eqn:Hc;
    [|left; unfold generateResponse; rewrite Hc; reflexivity].
  destruct (g_vocab s) as [v|] eqn:Hv;
    [|left; unfold generateResponse; rewrite Hc, Hv; reflexivity].
  destruct (tokenize_prompt v (full_prompt (GetStringUTFChars prompt)))
    as [[P toks]|] eqn:Htok.
  - right. right.
    destruct (generateResponse_ready env s c v prompt P toks Hc Hv Htok)
      as (st & iters & Hrun & Hgen).
    exists c, v, P, toks, st, iters.
    repeat split; try assumption; try reflexivity.
    rewrite Hgen, Hv. reflexivity.
  - right. left. unfold generateResponse. rewrite Hc, Hv, Htok. reflexivity.
Qed.


(** ** What is handed to [llama_decode] *)

Lemma vector_filled_length (n : Z) (written : list llama_token) :
  List.length (vector_filled n written) = Z.to_nat n.
Proof.
  unfold vector_filled. rewrite length_firstn, length_app, repeat_length. lia.
Qed.

Lemma tokenize_prompt_tokens (v : llama_vocab) (text : cbytes) P toks :
  tokenize_prompt v text = Some (P, toks) -> List.length toks = Z.to_nat P.
Proof.
  unfold tokenize_prompt.
  set (np := int_neg _).
  destruct (np <=? 0); [discriminate|].
  destruct (llama_tokenize v text _ np true true) as [r2 written].
  destruct (r2 <? 0); [discriminate|].
  intros H. inversion H; subst. apply vector_filled_length.
Qed.

Lemma loop_run_head (P : Z) (v : llama_vocab) st iters st' :
  loop_run env P v st iters st' -> iters = [] \/ exists rest, iters = st :: rest.
Proof. intros H. inversion H; subst; [left | right; eexists | right; eexists]; reflexivity. Qed.

(** A pass that goes on sampled one token and made it the next batch
    (line 168). *)
Lemma loop_body_next_feeds_sample (v : llama_vocab) (st st1 : loop_state) :
  loop_body env v st = Next st1 ->
  exists tok, sampled (trace st1) = sampled (trace st) ++ [tok] /\
              batch st1 = llama_batch_get_one [tok] 1.
Proof.
  pass_cases v st; intros H; inversion H; subst; cbn [trace batch];
    exists tok; rewrite ?sampled_app; cbn [sampled];
    try (destruct (forward_token_quiet (firstn (Z.to_nat n) w)) as (_ & _ & Hs);
         rewrite Hs);
    rewrite ?app_nil_r; split; reflexivity.
Qed.

Lemma loop_body_samples_at_most_once (v : llama_vocab) (st : loop_state) :
  exists l, sampled (trace (flow_state (loop_body env v st))) = sampled (trace st) ++ l.
Proof.
  destruct (loop_body_pass_events v st) as (q & -> & _).
  rewrite sampled_app. eexists. reflexivity.
Qed.

Lemma loop_run_feedback (P : Z) (v : llama_vocab) st iters st' :
  loop_run env P v st iters st' ->
  exists l,
    sampled (trace st') = sampled (trace st) ++ l /\
    map batch (tl iters)
    = map (fun t => llama_batch_get_one [t] 1) (firstn (List.length (tl iters)) l).
Proof.
  induction 1 as [st Hc | st st' Hc Hb | st st1 iters st' Hc Hb Hrun IH].
  - exists []. rewrite app_nil_r. split; reflexivity.
  - destruct (loop_body_samples_at_most_once v st) as [l Hl].
    rewrite Hb in Hl. exists l. split; [exact Hl | reflexivity].
  - destruct IH as (l & Hl & Hmap).
    destruct (loop_body_next_feeds_sample v st st1 Hb) as (tok & Hs & Hbat).
    exists (tok :: l). split.
    + rewrite Hl, Hs, <- app_assoc. reflexivity.
    + cbn [tl]. destruct (loop_run_head _ _ _ _ _ Hrun) as [-> | [rest ->]].
      * reflexivity.
      * cbn [tl List.length map firstn] in *. rewrite Hbat, Hmap. reflexivity.
Qed.

(** X2 -- The first [llama_decode] call of a generation gets the whole
    tokenised prompt, [n_prompt] tokens in a batch that says so; every
    later call gets a batch of one token, the token sampled in the pass
    before, in sampling order.  The token sampled last is never handed back
    to the backend. *)
Theorem decode_batches_follow_the_samples
  (s : session) c v (prompt : jstring) P toks :
  g_ctx s = Some c -> g_vocab s = Some v ->
  tokenize_prompt v (full_prompt (GetStringUTFChars prompt)) = Some (P, toks) ->
  exists st iters,
    loop_run env P v (loop_start c toks P) iters st /\
    events_of (generateResponse env s prompt) = trace st ++ [SamplerFree; PerfPrint] /\
    List.length toks = Z.to_nat P /\
    (iters <> [] ->
     map batch (firstn 1 iters) = [llama_batch_get_one toks P]) /\
    map batch (tl iters)
    = map (fun t => llama_batch_get_one [t] 1)
          (firstn (List.length (tl iters)) (sampled (trace st))) /\
    (List.length (tl iters) <= List.length (sampled (trace st)))%nat.
Proof.
  intros Hc Hv Htok.
  destruct (generateResponse_ready env s c v prompt P toks Hc Hv Htok)
    as (st & iters & Hrun & Hgen).
  exists st, iters. split; [exact Hrun|]. split; [rewrite Hgen; reflexivity|].
  split; [exact (tokenize_prompt_tokens _ _ _ _ Htok)|].
  destruct (loop_run_feedback _ _ _ _ _ Hrun) as (l & Hl & Hmap).
  cbn [loop_start trace sampled app] in Hl. split; [|split].
  - intros Hne. destruct (loop_run_head _ _ _ _ _ Hrun) as [-> | [rest ->]];
      [contradiction|]. reflexivity.
  - rewrite Hl. exact Hmap.
  - rewrite Hl. apply (f_equal (@List.length _)) in Hmap.
    rewrite !length_map, length_firstn in Hmap. lia.
Qed.

Lemma loop_run_submitted (P : Z) (v : llama_vocab) st iters st' :
  loop_run env P v st iters st' ->
  (exists tok, batch st = llama_batch_get_one [tok] 1) ->
  submitted (trace st') = submitted (trace st) + Z.of_nat (List.length iters).
Proof.
  induction 1 as [st Hc | st st' Hc Hb | st st1 iters st' Hc Hb Hrun IH];
    intros [tok Hbat]; cbn [List.length].
  - lia.
  - pose proof (loop_body_submits v st) as H. rewrite Hb in H. cbn [flow_state] in H.
    rewrite H, Hbat. cbn. lia.
  - pose proof (loop_body_submits v st) as H. rewrite Hb in H. cbn [flow_state] in H.
    rewrite IH by (apply loop_body_next_position in Hb as [_ Hex]; exact Hex).
    rewrite H, Hbat. cbn [llama_batch_get_one n_tokens]. lia.
Qed.

(** X3 -- One call of [generateResponse] hands the backend no token when it
    makes no decode call, and otherwise [n_prompt] tokens plus one for each
    decode call after the first: always fewer than [n_prompt + n_predict]
    tokens, whatever the context length. *)
Theorem submitted_tokens_are_counted
  (s : session) c v (prompt : jstring) P toks :
  g_ctx s = Some c -> g_vocab s = Some v ->
  tokenize_prompt v (full_prompt (GetStringUTFChars prompt)) = Some (P, toks) ->
  exists out s' tr,
    generateResponse env s prompt = Some (out, s', tr) /\
    submitted tr =
      (if Nat.eqb (decode_calls tr) 0 then 0
       else P + Z.of_nat (decode_calls tr) - 1) /\
    submitted tr < P + n_predict.
Proof.
  intros Hc Hv Htok.
  destruct (tokenize_prompt_some _ _ _ _ Htok) as [Hpos HP].
  destruct (generateResponse_ready env s c v prompt P toks Hc Hv Htok)
    as (st & iters & Hrun & Hgen).
  do 3 eexists. split; [exact Hgen|].
  pose proof (loop_run_length _ _ _ _ _ _ Hrun) as Hlen.
  pose proof (loop_start_measure c toks P Hpos HP) as Hm.
  pose proof (loop_run_decodes _ _ _ _ _ _ Hrun) as Hdec.
  change (decode_calls (trace (loop_start c toks P))) with O in Hdec.
  rewrite submitted_app, decode_calls_app.
  change (submitted [SamplerFree; PerfPrint]) with 0.
  change (decode_calls [SamplerFree; PerfPrint]) with O.
  rewrite Z.add_0_r, Nat.add_0_r, Hdec. cbn [Nat.add].
  assert (Hsub : submitted (trace st) =
                 if Nat.eqb (List.length iters) 0 then 0
                 else P + Z.of_nat (List.length iters) - 1).
  { inversion Hrun as [? Hc0 | ? ? Hc0 Hb | ? st1 rest ? Hc0 Hb Hrest]; subst.
    - reflexivity.
    - pose proof (loop_body_submits v (loop_start c toks P)) as H.
      rewrite Hb in H. cbn in H. cbn. lia.
    - pose proof (loop_body_submits v (loop_start c toks P)) as H.
      rewrite Hb in H. cbn [flow_state] in H.
      rewrite (loop_run_submitted _ _ _ _ _ Hrest)
        by (apply loop_body_next_position in Hb as [_ Hex]; exact Hex).
      rewrite H. cbn. lia. }
  split; [exact Hsub|]. rewrite Hsub. unfold n_predict in *.
  destruct (Nat.eqb (List.length iters) 0); lia.
Qed.

(** X4 -- The fragments appended during a generation are exactly the
    accepted pieces of the sampled tokens, in sampling order: a token adds
    its piece unless it is end-of-generation, has no piece in the buffer
    ([n <= 0]), or its piece begins with the stop marker.  The text returned
    is their concatenation, read as a C string. *)
Theorem output_is_made_of_sampled_pieces
  (s : session) c v (prompt : jstring) P toks :
  g_ctx s = Some c -> g_vocab s = Some v ->
  tokenize_prompt v (full_prompt (GetStringUTFChars prompt)) = Some (P, toks) ->
  exists out s' tr,
    generateResponse env s prompt = Some (out, s', tr) /\
    appended tr = flat_map (accepted_piece v) (sampled tr) /\
    out = NewStringUTF (List.concat (flat_map (accepted_piece v) (sampled tr))).
Proof.
  intros Hc Hv Htok.
  destruct (generateResponse_ready env s c v prompt P toks Hc Hv Htok)
    as (st & iters & Hrun & Hgen).
  do 3 eexists. split; [exact Hgen|].
  assert (Hprov : appended (trace st) = flat_map (accepted_piece v) (sampled (trace st))).
  { apply (loop_run_rule
             (fun x => appended (trace x) = flat_map (accepted_piece v) (sampled (trace x)))
             P v (loop_body_provenance v) _ _ _ Hrun). reflexivity. }
  pose proof (loop_run_invariant _ _ _ _ _ _ Hrun (loop_start_invariant env c toks P))
    as [Hres _ _].
  rewrite appended_app, sampled_app.
  change (appended [SamplerFree; PerfPrint]) with (@nil cbytes).
  change (sampled [SamplerFree; PerfPrint]) with (@nil llama_token).
  rewrite !app_nil_r. split; [exact Hprov|]. rewrite <- Hprov, Hres. reflexivity.
Qed.

(** ** The bytes returned *)

Lemma c_str_is_prefix (s : cbytes) : exists rest, s = c_str s ++ rest.
Proof.
  induction s as [|c t [rest IH]]; [exists []; reflexivity|].
  cbn [c_str]. destruct (is_nul c).
  - exists (c :: t). reflexivity.
  - exists rest. cbn [app]. rewrite <- IH. reflexivity.
Qed.

Lemma nul_free_concat_inv (l : list cbytes) :
  nul_free (List.concat l) -> Forall nul_free l.
Proof.
  induction l as [|p l IH]; cbn [List.concat]; intros H; [constructor|].
  unfold nul_free in H. apply Forall_app in H as [Hp Hl].
  constructor; [exact Hp | apply IH; exact Hl].
Qed.

(** X5 -- The bytes handed to [NewStringUTF] for the return are the
    accumulated result up to its first NUL byte: they hold no NUL, they are
    a beginning of the concatenation of the appended fragments, and they
    are all of it exactly when no appended fragment holds a NUL byte. *)
Theorem returned_bytes_are_the_result_up_to_nul
  (s : session) c v (prompt : jstring) P toks :
  g_ctx s = Some c -> g_vocab s = Some v ->
  tokenize_prompt v (full_prompt (GetStringUTFChars prompt)) = Some (P, toks) ->
  exists out s' tr,
    generateResponse env s prompt = Some (out, s', tr) /\
    nul_free out /\
    (exists rest, List.concat (appended tr) = out ++ rest) /\
    (out = List.concat (appended tr) <-> Forall nul_free (appended tr)).
Proof.
  intros Hc Hv Htok.
  destruct (generateResponse_ready env s c v prompt P toks Hc Hv Htok)
    as (st & iters & Hrun & Hgen).
  pose proof (loop_run_invariant _ _ _ _ _ _ Hrun (loop_start_invariant env c toks P))
    as [Hres _ _].
  do 3 eexists. split; [exact Hgen|].
  rewrite appended_app.
  change (appended [SamplerFree; PerfPrint]) with (@nil cbytes).
  rewrite !app_nil_r. unfold NewStringUTF. rewrite <- Hres.
  split; [apply c_str_nul_free|]. split; [apply c_str_is_prefix|]. split.
  - intros H. apply nul_free_concat_inv. rewrite <- Hres, <- H. apply c_str_nul_free.
  - intros H. apply c_str_of_nul_free. rewrite Hres. apply nul_free_concat. exact H.
Qed.

(** ** A generation that nothing stops *)




(** ** One call after another *)

(** X8 -- [generateResponse] on an initialised session leaves it
    initialised, with the same model and vocabulary, also when a decode call
    failed; the context is left in the state its last decode call gave, and
    the next call starts its loop from that state: nothing resets the
    context between two calls. *)
Theorem generations_thread_the_context
  (s : session) c v (p1 : jstring) P1 toks1 :
  g_ctx s = Some c -> g_vocab s = Some v ->
  tokenize_prompt v (full_prompt (GetStringUTFChars p1)) = Some (P1, toks1) ->
  exists st1 iters1,
    loop_run env P1 v (loop_start c toks1 P1) iters1 st1 /\
    exec env s (CallGenerate p1)
    = {| g_model := g_model s; g_vocab := Some v; g_ctx := Some (ctx st1) |} /\
    forall p2 P2 toks2,
      tokenize_prompt v (full_prompt (GetStringUTFChars p2)) = Some (P2, toks2) ->
      exists st2 iters2,
        loop_run env P2 v (loop_start (ctx st1) toks2 P2) iters2 st2 /\
        returned (generateResponse env (exec env s (CallGenerate p1)) p2)
        = Some (NewStringUTF (result st2)).
Proof.
  intros Hc Hv Htok.
  destruct (generateResponse_ready env s c v p1 P1 toks1 Hc Hv Htok)
    as (st1 & iters1 & Hrun1 & Hgen1).
  exists st1, iters1. split; [exact Hrun1|].
  assert (Hexec : exec env s (CallGenerate p1)
                  = {| g_model := g_model s; g_vocab := Some v; g_ctx := Some (ctx st1) |}).
  { cbn [exec]. rewrite Hgen1, Hv. reflexivity. }
  split; [exact Hexec|].
  intros p2 P2 toks2 Htok2. rewrite Hexec.
  destruct (generateResponse_ready env
              {| g_model := g_model s; g_vocab := Some v; g_ctx := Some (ctx st1) |}
              (ctx st1) v p2 P2 toks2 eq_refl eq_refl Htok2)
    as (st2 & iters2 & Hrun2 & Hgen2).
  exists st2, iters2. split; [exact Hrun2|]. rewrite Hgen2. reflexivity.
Qed.

End Generation.

(** ** Models and contexts over a sequence of calls *)

Section Lifecycle.

Context {B : Backend}.
Variable env : JNIEnv.

Lemma count_events_app (f : event -> bool) (a b : list event) :
  count_events f (a ++ b) = (count_events f a + count_events f b)%nat.
Proof. unfold count_events. rewrite filter_app, length_app. reflexivity. Qed.

Lemma count_events_none (f : event -> bool) (tr : list event) :
  Forall (fun e => f e = false) tr -> count_events f tr = O.
Proof.
  unfold count_events. induction 1 as [|e tr He _ IH]; cbn [filter]; [reflexivity|].
  rewrite He. exact IH.
Qed.

Lemma loop_run_pass_events (P : Z) (v : llama_vocab) st iters st' :
  loop_run env P v st iters st' ->
  exists q, trace st' = trace st ++ q /\ Forall (fun e => pass_event e = true) q.
Proof.
  induction 1 as [st Hc | st st' Hc Hb | st st1 iters st' Hc Hb Hrun IH].
  - exists []. rewrite app_nil_r. split; [reflexivity | constructor].
  - destruct (loop_body_pass_events env v st) as (q & Hq & Hall).
    rewrite Hb in Hq. exists q. split; assumption.
  - destruct (loop_body_pass_events env v st) as (q & Hq & Hall).
    rewrite Hb in Hq. cbn [flow_state] in Hq.
    destruct IH as (q' & Hq' & Hall'). exists (q ++ q'). split.
    + rewrite Hq', Hq, app_assoc. reflexivity.
    + apply Forall_app. split; assumption.
Qed.

(** A call of [generateResponse] loads, creates and frees nothing, and keeps
    what the session holds. *)
Lemma generateResponse_acquires_nothing (s : session) (p : jstring) :
  let r := exec_events env s (CallGenerate p) in
  models_loaded (snd r) = O /\ contexts_created (snd r) = O /\
  models_freed (snd r) = O /\ contexts_freed (snd r) = O /\
  g_model (fst r) = g_model s /\ g_vocab (fst r) = g_vocab s /\
  held (g_ctx (fst r)) = held (g_ctx s).
Proof.
  cbn [exec_events].
  destruct (generateResponse_cases env s p)
    as [H | [H | (c & v & P & toks & st & iters & Hc & Hv & _ & Hrun & H)]];
    rewrite H; cbn [fst snd]; try (repeat split; reflexivity).
  destruct (loop_run_pass_events _ _ _ _ _ Hrun) as (q & Hq & Hall).
  rewrite Hq. cbn [loop_start trace g_model g_vocab g_ctx held].
  unfold models_loaded, contexts_created, models_freed, contexts_freed.
  rewrite !count_events_app.
  assert (Hnone : forall f : event -> bool,
             (forall e, pass_event e = true -> f e = false) ->
             count_events f q = O).
  { intros f Hf. apply count_events_none.
    apply (Forall_impl _ Hf Hall). }
  rewrite !Hnone by (intros [] He; try reflexivity; discriminate He).
  rewrite Hc. repeat split; reflexivity.
Qed.

(** A call made under the discipline frees or still holds all it acquired
    or held before. *)
Lemma exec_events_balance (s : session) (c : call) :
  (forall p, c = CallInit p -> g_model s = None /\ g_ctx s = None) ->
  let r := exec_events env s c in
  (models_loaded (snd r) + held (g_model s)
   = models_freed (snd r) + held (g_model (fst r)))%nat /\
  (contexts_created (snd r) + held (g_ctx s)
   = contexts_freed (snd r) + held (g_ctx (fst r)))%nat.
Proof.
  intros Hdisc. destruct c as [p | p |].
  - destruct (Hdisc p eq_refl) as [Hm Hc]. rewrite Hm, Hc.
    cbn [exec_events]. unfold initLlama. cbv zeta.
    destruct (llama_model_load_from_file (GetStringUTFChars p) n_gpu_layers)
      as [m|] eqn:Hload.
    + destruct (llama_init_from_model m n_ctx n_batch false) as [c|] eqn:Hctx;
        cbn [fst snd g_model g_ctx held];
        unfold models_freed, models_loaded, contexts_freed, contexts_created,
               count_events;
        cbn [filter]; rewrite Hload, Hctx; cbn [List.length]; lia.
    + cbn [fst snd g_model g_ctx held]. rewrite Hc.
      unfold models_freed, models_loaded, contexts_freed, contexts_created,
             count_events;
      cbn [filter]; rewrite Hload; cbn [List.length held]; lia.
  - pose proof (generateResponse_acquires_nothing s p) as H. cbv zeta in H.
    destruct H as (H1 & H2 & H3 & H4 & H5 & _ & H6).
    cbv zeta. rewrite H1, H2, H3, H4, H5, H6. lia.
  - cbn [exec_events]. unfold releaseLlama.
    destruct (g_ctx s), (g_model s); cbn; lia.
Qed.

Lemma run_step (s : session) (c : call) (cs : list call) :
  run env s (c :: cs)
  = (fst (run env (fst (exec_events env s c)) cs),
     snd (exec_events env s c) ++ snd (run env (fst (exec_events env s c)) cs)).
Proof.
  cbn [run]. destruct (exec_events env s c) as [s1 tr1]. cbn [fst snd].
  destruct (run env s1 cs) as [s2 tr2]. reflexivity.
Qed.

(** X9 -- In a sequence of calls in which [initLlama] is only called on a
    session that holds no model and no context, nothing is lost: the models
    loaded and the contexts created are, each of them, either freed or
    still held by the session.  After a final [releaseLlama] everything
    acquired has been freed. *)
Theorem disciplined_calls_lose_nothing (s : session) (cs : list call) :
  disciplined env s cs ->
  (models_loaded (snd (run env s cs)) + held (g_model s)
   = models_freed (snd (run env s cs)) + held (g_model (fst (run env s cs))))%nat /\
  (contexts_created (snd (run env s cs)) + held (g_ctx s)
   = contexts_freed (snd (run env s cs)) + held (g_ctx (fst (run env s cs))))%nat /\
  held (g_model (fst (run env s (cs ++ [CallRelease])))) = O /\
  held (g_ctx (fst (run env s (cs ++ [CallRelease])))) = O.
Proof.
  revert s. induction cs as [|c cs IH]; intros s Hd.
  - cbn. repeat split; try lia; unfold releaseLlama;
      destruct (g_ctx s), (g_model s); reflexivity.
  - destruct Hd as [Hc Hd]. cbn [app]. rewrite !run_step. cbn [fst snd].
    destruct (IH _ Hd) as (IHm & IHc & IHrm & IHrc).
    destruct (exec_events_balance s c) as [Hm Hx].
    { intros p ->. exact Hc. }
    cbv zeta in Hm, Hx.
    unfold models_loaded, models_freed, contexts_created, contexts_freed in *.
    rewrite !count_events_app. repeat split; try assumption; lia.
Qed.

(** X11 -- A call that frees a model leaves neither a context nor a
    vocabulary handle behind: the context goes before its model, and the
    vocabulary handle goes with it. *)
Theorem freed_model_leaves_no_handle (s : session) (c : call) :
  models_freed (snd (exec_events env s c)) <> O ->
  g_model (fst (exec_events env s c)) = None /\
  g_vocab (fst (exec_events env s c)) = None /\
  g_ctx (fst (exec_events env s c)) = None.
Proof.
  destruct c as [p | p |].
  - cbn [exec_events]. unfold initLlama. cbv zeta.
    destruct (llama_model_load_from_file (GetStringUTFChars p) n_gpu_layers) as [m|].
    + destruct (llama_init_from_model m n_ctx n_batch false) as [c|];
        cbn [fst snd]; intros H; [contradiction H; reflexivity|].
      repeat split.
    + cbn [fst snd]. intros H. contradiction H. reflexivity.
  - pose proof (generateResponse_acquires_nothing s p) as H. cbv zeta in H.
    destruct H as (_ & _ & H3 & _). rewrite H3.
    intros H. contradiction H. reflexivity.
  - cbn [exec_events]. unfold releaseLlama.
    destruct (g_ctx s), (g_model s); cbn; intros H; try (contradiction H; reflexivity);
      repeat split.
Qed.

(** X12 -- When the model file does not load, [initLlama] answers -1 and
    keeps the context and the vocabulary the session held: a following
    [generateResponse] behaves as before the call (same text, same calls),
    and a following [releaseLlama] frees no model, so a model held before
    the call is never freed. *)
Theorem failed_load_keeps_the_old_context
  (s : session) (path prompt : jstring) :
  llama_model_load_from_file (GetStringUTFChars path) n_gpu_layers = None ->
  fst (fst (initLlama s path)) = -1 /\
  g_ctx (exec env s (CallInit path)) = g_ctx s /\
  g_vocab (exec env s (CallInit path)) = g_vocab s /\
  returned (generateResponse env (exec env s (CallInit path)) prompt)
  = returned (generateResponse env s prompt) /\
  events_of (generateResponse env (exec env s (CallInit path)) prompt)
  = events_of (generateResponse env s prompt) /\
  models_freed (snd (releaseLlama (exec env s (CallInit path)))) = O.
Proof.
  intros Hload.
  assert (Hs : exec env s (CallInit path)
               = {| g_model := None; g_vocab := g_vocab s; g_ctx := g_ctx s |}).
  { cbn [exec]. unfold initLlama. rewrite Hload. reflexivity. }
  rewrite Hs. cbn [g_ctx g_vocab].
  split; [unfold initLlama; rewrite Hload; reflexivity|].
  split; [reflexivity|]. split; [reflexivity|].
  unfold generateResponse. cbn [g_ctx g_vocab g_model].
  destruct (g_ctx s) as [c|]; [|repeat split; reflexivity].
  destruct (g_vocab s) as [v|]; [|repeat split; reflexivity].
  destruct (tokenize_prompt v (full_prompt (GetStringUTFChars prompt))) as [[P toks]|];
    [|repeat split; reflexivity].
  destruct (generation_loop env _ P v (loop_start c toks P)); repeat split; reflexivity.
Qed.

(** X13 -- [releaseLlama] on a session whose handles are consistent gives
    back the initial session, to which [generateResponse] answers
    "Model not initialized" without any call to the backend. *)
Theorem release_gives_the_initial_session (s : session) (prompt : jstring) :
  handles_consistent s ->
  fst (releaseLlama s) = initial_session /\
  generateResponse env (fst (releaseLlama s)) prompt
  = Some (lit "Model not initialized", initial_session, []).
Proof.
  intros [Hctx Hvoc].
  assert (Hrel : fst (releaseLlama s) = initial_session).
  { unfold releaseLlama, initial_session. destruct s as [gm gv gc].
    cbn [g_model g_vocab g_ctx] in *.
    destruct gc as [c0|], gm as [m0|]; cbn [fst]; try reflexivity.
    - exfalso. apply Hctx; [discriminate | reflexivity].
    - destruct gv as [v0|]; [|reflexivity].
      exfalso. apply (proj1 Hvoc); [discriminate | reflexivity]. }
  split; [exact Hrel|]. rewrite Hrel. reflexivity.
Qed.

End Lifecycle.

(** ** The prompt template *)

Lemma lit_nul_free_prefix : nul_free (lit "<start_of_turn>user" ++ [LF]).
Proof. repeat constructor. Qed.

Lemma lit_nul_free_suffix :
  nul_free ([LF] ++ lit "<end_of_turn>" ++ [LF] ++ lit "<start_of_turn>model" ++ [LF]).
Proof. repeat constructor. Qed.

(** X14 -- The text handed to the tokenizer is the user's text, cut at its
    first NUL byte, between the two fixed turn markers, with nothing
    escaped: it holds no NUL byte, so the byte count passed with it covers
    all of it; it is 56 bytes longer than the user's text; and two prompts
    give the same text exactly when they are the same C string. *)
Theorem prompt_template_embeds_the_text (p q : jstring) :
  nul_free (full_prompt (GetStringUTFChars p)) /\
  c_str (full_prompt (GetStringUTFChars p)) = full_prompt (GetStringUTFChars p) /\
  List.length (full_prompt (GetStringUTFChars p)) = (56 + List.length (c_str p))%nat /\
  (full_prompt (GetStringUTFChars p) = full_prompt (GetStringUTFChars q)
   <-> c_str p = c_str q).
Proof.
  assert (Hnf : forall x, nul_free (full_prompt (GetStringUTFChars x))).
  { intros x. unfold full_prompt.
    apply nul_free_app; [exact lit_nul_free_prefix|].
    apply nul_free_app; [apply c_str_nul_free | exact lit_nul_free_suffix]. }
  split; [apply Hnf|]. split; [apply c_str_of_nul_free, Hnf|].
  unfold full_prompt, GetStringUTFChars. rewrite !c_str_idempotent. split.
  - rewrite !length_app. cbn. lia.
  - split.
    + intros H. apply app_inv_head in H. apply app_inv_tail in H. exact H.
    + intros ->. reflexivity.
Qed.

(** * The further properties on concrete runs *)

(** The plain script: the batches after the first hold the sampled tokens. *)
Lemma decode_batches_follow_the_samples_witness :
  exists st iters,
    loop_run (B:=scripted plain_script) env_with_sink 3 tt
             (loop_start (B:=scripted plain_script) O [2; 2; 2] 3) iters st /\
    map batch (tl iters)
    = map (fun t => llama_batch_get_one [t] 1)
          (firstn (List.length (tl iters)) (sampled (trace st))).
Proof.
  destruct (decode_batches_follow_the_samples (B:=scripted plain_script)
              env_with_sink (ready_session plain_script) O tt hi 3 [2; 2; 2]
              eq_refl eq_refl eq_refl)
    as (st & iters & Hrun & _ & _ & _ & Hmap & _).
  exists st, iters. split; assumption.
Defined.

(** The plain script: fewer than 3 + 64 tokens are handed to the backend. *)
Lemma submitted_tokens_are_counted_witness :
  exists out s' tr,
    generateResponse (B:=scripted plain_script) env_with_sink
      (ready_session plain_script) hi = Some (out, s', tr) /\
    submitted tr < 3 + n_predict.
Proof.
  destruct (submitted_tokens_are_counted (B:=scripted plain_script)
              env_with_sink (ready_session plain_script) O tt hi 3 [2; 2; 2]
              eq_refl eq_refl eq_refl)
    as (out & s' & tr & Hgen & _ & Hlt).
  exists out, s', tr. split; assumption.
Defined.

(** The plain script: what is appended is what the sampled tokens give. *)
Lemma output_is_made_of_sampled_pieces_witness :
  exists out s' tr,
    generateResponse (B:=scripted plain_script) env_with_sink
      (ready_session plain_script) hi = Some (out, s', tr) /\
    appended tr = flat_map (accepted_piece (B:=scripted plain_script) tt) (sampled tr).
Proof.
  destruct (output_is_made_of_sampled_pieces (B:=scripted plain_script)
              env_with_sink (ready_session plain_script) O tt hi 3 [2; 2; 2]
              eq_refl eq_refl eq_refl)
    as (out & s' & tr & Hgen & Happ & _).
  exists out, s', tr. split; assumption.
Defined.

(** The byte token 0x00 before "b": the bytes returned begin the result. *)
Lemma returned_bytes_are_the_result_up_to_nul_witness :
  exists out s' tr,
    generateResponse (B:=scripted nul_script) env_with_sink
      (ready_session nul_script) hi = Some (out, s', tr) /\
    exists rest, List.concat (appended tr) = out ++ rest.
Proof.
  destruct (returned_bytes_are_the_result_up_to_nul (B:=scripted nul_script)
              env_with_sink (ready_session nul_script) O tt hi 3 [2; 2; 2]
              eq_refl eq_refl eq_refl)
    as (out & s' & tr & Hgen & _ & Hpre & _).
  exists out, s', tr. split; assumption.
Defined.


(** The plain script, called twice. *)
Lemma generations_thread_the_context_witness :
  exists st1 iters1,
    loop_run (B:=scripted plain_script) env_with_sink 3 tt
             (loop_start (B:=scripted plain_script) O [2; 2; 2] 3) iters1 st1 /\
    exec env_with_sink (ready_session plain_script) (CallGenerate hi)
    = @mkSession (scripted plain_script) (Some (lit "m.gguf")) (Some tt)
                 (Some (ctx st1)).
Proof.
  destruct (generations_thread_the_context (B:=scripted plain_script)
              env_with_sink (ready_session plain_script) O tt hi 3 [2; 2; 2]
              eq_refl eq_refl eq_refl)
    as (st1 & iters1 & Hrun & Hexec & _).
  exists st1, iters1. split; assumption.
Defined.

(** Initialise, generate, release. *)
Lemma disciplined_calls_lose_nothing_witness :
  let cs := [CallInit (lit "m.gguf"); CallGenerate hi; CallRelease] in
  let r := run (B:=scripted plain_script) env_with_sink initial_session cs in
  (models_loaded (snd r) + 0 = models_freed (snd r) + held (g_model (fst r)))%nat.
Proof.
  cbv zeta.
  apply (disciplined_calls_lose_nothing (B:=scripted plain_script) env_with_sink
           initial_session [CallInit (lit "m.gguf"); CallGenerate hi; CallRelease]).
  cbn [disciplined]. repeat split; reflexivity.
Defined.

(** Releasing a ready session frees its model and leaves no handle. *)
Lemma freed_model_leaves_no_handle_witness :
  g_ctx (fst (exec_events (B:=scripted plain_script) env_with_sink
                (ready_session plain_script) CallRelease)) = None.
Proof.
  apply (freed_model_leaves_no_handle (B:=scripted plain_script) env_with_sink
           (ready_session plain_script) CallRelease).
  vm_compute. discriminate.
Defined.

(** A ready session, and a path that does not load. *)
Lemma failed_load_keeps_the_old_context_witness :
  fst (fst (initLlama (B:=scripted plain_script) (ready_session plain_script) [])) = -1 /\
  g_ctx (exec env_with_sink (ready_session plain_script) (CallInit []))
  = g_ctx (ready_session plain_script).
Proof.
  destruct (failed_load_keeps_the_old_context (B:=scripted plain_script)
              env_with_sink (ready_session plain_script) [] hi eq_refl)
    as (Hrc & Hctx & _).
  split; assumption.
Defined.

(** Releasing a ready session. *)
Lemma release_gives_the_initial_session_witness :
  fst (releaseLlama (ready_session plain_script)) = initial_session.
Proof.
  apply (release_gives_the_initial_session (B:=scripted plain_script)
           env_with_sink (ready_session plain_script) hi).
  split; [|split]; intros _; discriminate.
Defined.

(** * Whole runs *)

Section Runs.

Context {B : Backend}.
Variable env : JNIEnv.

(** ** Tokens without a fragment, in a whole generation *)

Lemma loop_body_stores_positive (v : llama_vocab) (st : loop_state) :
  Forall (fun i => 0 < i) (stores (trace st)) ->
  Forall (fun i => 0 < i) (stores (trace (flow_state (loop_body env v st)))).
Proof.
  intros Hst. unfold loop_body.
  destruct (llama_decode (ctx st) (batch st)) as [rc c1].
  destruct (rc =? 0); cbn [negb flow_state trace];
    [|rewrite stores_app; cbn [stores]; rewrite app_nil_r; exact Hst].
  destruct (llama_sampler_sample (smpl st) c1 (-1)) as [tok s1].
  destruct (llama_vocab_is_eog v tok); cbn [flow_state trace];
    [rewrite !stores_app; cbn [stores]; rewrite !app_nil_r; exact Hst|].
  destruct (llama_token_to_piece v tok sizeof_buf 0 true) as [n w].
  destruct (0 <? n) eqn:Hn; cbn [flow_state trace];
    [|rewrite !stores_app; cbn [stores]; rewrite !app_nil_r; exact Hst].
  apply Z.ltb_lt in Hn.
  destruct (strncmp (firstn (Z.to_nat n) w) END_OF_TURN 13 =? 0);
    cbn [flow_state trace]; rewrite !stores_app; cbn [stores].
  - rewrite !app_nil_r. apply Forall_app. split; [exact Hst | repeat constructor; exact Hn].
  - destruct (forward_token_cases env (firstn (Z.to_nat n) w)) as [-> | ->];
      cbn [stores]; rewrite !app_nil_r;
      (apply Forall_app; split; [exact Hst | repeat constructor; exact Hn]).
Qed.

(** A pass that has a fragment stores the terminator once, at the index
    [llama_token_to_piece] answered. *)
Lemma loop_body_stores_at_n (v : llama_vocab) (st : loop_state) c1 tok s1 n w :
  llama_decode (ctx st) (batch st) = (0, c1) ->
  llama_sampler_sample (smpl st) c1 (-1) = (tok, s1) ->
  llama_vocab_is_eog v tok = false ->
  llama_token_to_piece v tok sizeof_buf 0 true = (n, w) ->
  0 < n ->
  stores (trace (flow_state (loop_body env v st))) = stores (trace st) ++ [n].
Proof.
  intros Hdec Hsmp Heog Hpiece Hn. unfold loop_body.
  rewrite Hdec. cbn [Z.eqb negb]. rewrite Hsmp, Heog, Hpiece.
  apply Z.ltb_lt in Hn. rewrite Hn.
  destruct (strncmp (firstn (Z.to_nat n) w) END_OF_TURN 13 =? 0);
    cbn [flow_state trace]; rewrite !stores_app; cbn [stores].
  - rewrite !app_nil_r. reflexivity.
  - destruct (forward_token_cases env (firstn (Z.to_nat n) w)) as [-> | ->];
      cbn [stores]; rewrite !app_nil_r; reflexivity.
Qed.

(** The pass after a pass that goes on starts in the state that pass left;
    there is none only when the loop condition fails there. *)
Lemma loop_run_nth_next (P : Z) (v : llama_vocab) st iters st' :
  loop_run env P v st iters st' ->
  forall k i j,
    nth_error iters k = Some i -> loop_body env v i = Next j ->
    nth_error iters (S k) = Some j \/
    (nth_error iters (S k) = None /\ loop_cond P j = false /\ st' = j).
Proof.
  induction 1 as [st Hc | st st' Hc Hb | st st1 iters st' Hc Hb Hrun IH];
    intros k i j Hk Hj.
  - destruct k; discriminate Hk.
  - destruct k as [|k]; cbn [nth_error] in Hk.
    + injection Hk as <-. congruence.
    + destruct k; discriminate Hk.
  - destruct k as [|k]; cbn [nth_error] in *.
    + injection Hk as <-. assert (st1 = j) by congruence. subst j.
      inversion Hrun as [? Hc1 | ? ? Hc1 Hb1 | ? ? ? ? Hc1 Hb1 Hrun1]; subst.
      * right. repeat split; auto.
      * left. reflexivity.
      * left. reflexivity.
    + apply (IH k i j Hk Hj).
Qed.

(** C9 -- In every generation, a pass whose decode succeeded and whose
    sampled token is not end-of-generation but has no fragment in the buffer
    ([llama_token_to_piece] answered [n <= 0]) adds nothing to the result,
    makes no sink call, checks no stop marker and stores nothing in the
    fragment buffer; the loop goes on, and its next pass, if the budget
    leaves one, decodes the one-token batch of that token.  In the whole
    generation every terminator store [buf[n] = 0] is at an index [n > 0]:
    none is made for such a token, and a pass whose token has a fragment
    makes one store, at the index [n] that [llama_token_to_piece] answered.
    Nothing bounds that index by the size of the array: for
    [n = sizeof buf] it is the first byte after it
    ([terminator_store_at_buffer_size]). *)
Theorem token_without_fragment_is_skipped
  (s : session) c v (prompt : jstring) P toks :
  g_ctx s = Some c -> g_vocab s = Some v ->
  tokenize_prompt v (full_prompt (GetStringUTFChars prompt)) = Some (P, toks) ->
  exists st iters,
    loop_run env P v (loop_start c toks P) iters st /\
    generateResponse env s prompt =
      Some (NewStringUTF (result st),
            {| g_model := g_model s; g_vocab := g_vocab s; g_ctx := Some (ctx st) |},
            trace st ++ [SamplerFree; PerfPrint]) /\
    Forall (fun i => 0 < i) (stores (trace st ++ [SamplerFree; PerfPrint])) /\
    forall k i c1 tok s1 n w,
      nth_error iters k = Some i ->
      llama_decode (ctx i) (batch i) = (0, c1) ->
      llama_sampler_sample (smpl i) c1 (-1) = (tok, s1) ->
      llama_vocab_is_eog v tok = false ->
      llama_token_to_piece v tok sizeof_buf 0 true = (n, w) ->
      (0 < n ->
       stores (trace (flow_state (loop_body env v i))) = stores (trace i) ++ [n]) /\
      (n <= 0 ->
       let j := mkLoop (int_add (n_pos i) (n_tokens (batch i)))
                       (llama_batch_get_one [tok] 1) (result i) c1 s1
                       (trace i ++ [Decode (n_tokens (batch i)) 0; Sample tok]) in
       loop_body env v i = Next j /\
       (nth_error iters (S k) = Some j \/
        (nth_error iters (S k) = None /\ loop_cond P j = false /\ st = j))).
Proof.
  intros Hc Hv Htok.
  destruct (generateResponse_ready env s c v prompt P toks Hc Hv Htok)
    as (st & iters & Hrun & Hgen).
  exists st, iters. split; [exact Hrun|]. split; [exact Hgen|]. split.
  - rewrite stores_app. cbn [stores]. rewrite app_nil_r.
    apply (loop_run_rule env (fun x => Forall (fun i => 0 < i) (stores (trace x)))
             P v (loop_body_stores_positive v) _ _ _ Hrun).
    constructor.
  - intros k i c1 tok s1 n w Hk Hdec Hsmp Heog Hpiece.
    split; [apply (loop_body_stores_at_n v i c1 tok s1 n w); assumption|].
    intros Hn j.
    destruct (loop_body_skips_token_without_fragment env v i c1 tok s1 n w
                Hdec Hsmp Heog Hpiece) as [_ Hskip].
    specialize (Hskip Hn). fold j in Hskip. split; [exact Hskip|].
    exact (loop_run_nth_next P v _ _ _ Hrun k i j Hk Hskip).
Qed.

(** ** The handle invariant along a sequence of calls *)

Lemma sessions_stay_consistent (cs : list call) :
  forall s, handles_consistent s -> inits_without_model env s cs ->
            Forall handles_consistent (sessions env s cs).
Proof.
  induction cs as [|c cs IH]; intros s Hs Hd; cbn [sessions]; [constructor|].
  destruct Hd as [Hc Hd].
  assert (Hs' : handles_consistent (exec env s c)).
  { apply exec_keeps_handles_consistent; [exact Hs|]. intros p ->. exact Hc. }
  constructor; [exact Hs'|]. apply IH; assumption.
Qed.

(** C10 (amended) -- In every sequence of calls made from the session never
    initialised, in which [initLlama] is only called while no model is held,
    the handles are consistent after every call: the context handle is
    non-null only if the model handle is, and the vocabulary handle is
    non-null exactly when the model handle is. *)
Theorem handles_stay_consistent (cs : list call) :
  inits_without_model env initial_session cs ->
  Forall handles_consistent (sessions env initial_session cs).
Proof.
  intros Hd. apply sessions_stay_consistent; [|exact Hd].
  split; [|split]; cbn; intros H; contradiction H; reflexivity.
Qed.

End Runs.

(** ** Greedy sampling *)

Section Greedy.

Variable B0 : Backend.
Variable logit : Type.
Variable logit_gt : logit -> logit -> bool.
Variable logits : @llama_context B0 -> Z -> list logit.
Variables rng1 rng2 : nat -> list logit -> llama_token.
Variable env : JNIEnv.

Local Abbreviation B1 := (with_sampler_chain logit logit_gt rng1 B0 logits).
Local Abbreviation B2 := (with_sampler_chain logit logit_gt rng2 B0 logits).





End Greedy.

(** A chain with a random stage follows the source of randomness: the model
    of the sampler does tell a greedy chain from one that draws. *)
Lemma dist_chain_follows_the_rng :
  fst (@llama_sampler_sample
         (with_sampler_chain Z Z.gtb rng_low (scripted plain_script) scripted_logits)
         {| stages := [stage_dist]; draws := O |} 1%nat (-1))
  <> fst (@llama_sampler_sample
            (with_sampler_chain Z Z.gtb rng_high (scripted plain_script) scripted_logits)
            {| stages := [stage_dist]; draws := O |} 1%nat (-1)).
Proof. vm_compute. discriminate. Qed.

(** The plain script with logits, sampled greedily under two sources of
    randomness: "Hi!" both times. *)
Lemma greedy_generation_on_the_plain_script :
  returned (generateResponse
              (B:=with_sampler_chain Z Z.gtb rng_low (scripted plain_script) scripted_logits)
              env_with_sink
              (@mkSession (with_sampler_chain Z Z.gtb rng_low (scripted plain_script)
                             scripted_logits)
                          (Some (lit "m.gguf")) (Some tt) (Some O)) hi)
  = Some (lit "Hi!") /\
  returned (generateResponse
              (B:=with_sampler_chain Z Z.gtb rng_high (scripted plain_script) scripted_logits)
              env_with_sink
              (@mkSession (with_sampler_chain Z Z.gtb rng_high (scripted plain_script)
                             scripted_logits)
                          (Some (lit "m.gguf")) (Some tt) (Some O)) hi)
  = Some (lit "Hi!").
Proof. vm_compute. split; reflexivity. Qed.

(** ** The further claims on concrete runs *)

(** A first token whose piece does not fit the buffer: the first pass skips
    it, and the second pass decodes it. *)
Lemma token_without_fragment_is_skipped_witness :
  exists st iters j,
    loop_run (B:=scripted long_piece_script) env_with_sink 3 tt
             (loop_start (B:=scripted long_piece_script) O [2; 2; 2] 3) iters st /\
    batch j = llama_batch_get_one [1] 1 /\
    result j = [] /\
    nth_error iters 1 = Some j.
Proof.
  destruct (token_without_fragment_is_skipped (B:=scripted long_piece_script)
              env_with_sink (ready_session long_piece_script) O tt hi 3 [2; 2; 2]
              eq_refl eq_refl eq_refl)
    as (st & iters & Hrun & Hgen & _ & Hskip).
  assert (H0 : nth_error iters 0
               = Some (loop_start (B:=scripted long_piece_script) O [2; 2; 2] 3)).
  { inversion Hrun as [? Hc | ? ? Hc Hb | ? ? ? ? Hc Hb Hr]; subst;
      [vm_compute in Hc; discriminate Hc | reflexivity | reflexivity]. }
  destruct (proj2 (Hskip O (loop_start (B:=scripted long_piece_script) O [2; 2; 2] 3)
                         1%nat 1 tt (-200) [] H0 eq_refl eq_refl eq_refl eq_refl))
    as [Hb [Hnext | (_ & Hcond & _)]].
  { vm_compute. discriminate. }
  - eexists st, iters, _. split; [exact Hrun|]. split; [|split; [|exact Hnext]];
      reflexivity.
  - vm_compute in Hcond. discriminate Hcond.
Defined.

(** Initialise, generate, release, a load that fails, initialise again. *)
Lemma handles_stay_consistent_witness :
  Forall handles_consistent
    (sessions (B:=scripted plain_script) env_with_sink initial_session
       [CallInit (lit "m.gguf"); CallGenerate hi; CallRelease; CallInit [];
        CallInit (lit "m.gguf")]).
Proof.
  apply (handles_stay_consistent (B:=scripted plain_script) env_with_sink).
  cbn [inits_without_model]. repeat split; vm_compute; reflexivity.
Defined.
